(** * purge-deps: removing vendor and package cache directories

    A shallow embedding of [main.go]: the traversal engine [Walk], the
    catalogue of [runners], the dry-run stub, the cache-clearing finalizer
    and [main], followed by the properties of the program.

    Effects are explicit: the program runs in a state monad over a [World]
    made of the file system and a trace of the calls the program issues to
    its environment (directory listings, writes to the two output streams,
    removals, child processes).  The operating system itself is a parameter
    (class [OS]); a small concrete instance is used to run the program on
    explicit inputs. *)

From Stdlib Require Import String Ascii List Bool Arith NArith Sorted Permutation Lia.
Import ListNotations.
Local Open Scope string_scope.
Local Open Scope list_scope.

Set Implicit Arguments.

(** ** Values of the Go runtime the program handles *)

(** [syscall.Errno], as far as the program can tell the values apart. *)
Inductive Errno := ENOENT | EACCES | EPERM | ENOTDIR | EIO.

(** A command built by [exec.Command(name, arg...)], with [cmd.Dir]. *)
Record Cmd := mkCmd {
  cmd_Name : string;
  cmd_Args : list string;
  cmd_Dir  : string          (* empty: the working directory of the caller *)
}.

(** [cmd.String()], as it is when the program name was not resolved to a
    path: the name and the arguments, separated by spaces.  (For a resolved
    name the library prints the path of the executable in place of the
    name; the properties below take the string as [Cmd_String] gives it and
    do not depend on its characters.) *)
Definition Cmd_String (c : Cmd) : string :=
  String.concat " " (cmd_Name c :: cmd_Args c).

(** Go's [error] values.  [Errorf fmt a e] is the value built by
    [fmt.Errorf(fmt, a, e)] where [fmt] ends in [%w]; the format is kept as
    written in the source (escapes are not interpreted). *)
Inductive error :=
| PathError (op path : string) (no : Errno)   (* *os.PathError *)
| ExitError (status : nat)                    (* *exec.ExitError, status <> 0 *)
| ExecError (name : string)                   (* *exec.Error: not startable *)
| Errorf (format : string) (a : string) (wrapped : error).

(** [os.IsNotExist]: looks through a [PathError], not through [%w]. *)
Definition os_IsNotExist (e : error) : bool :=
  match e with
  | PathError _ _ ENOENT => true
  | _ => false
  end.

(** [os.FileMode], reduced to the type bits. *)
Inductive FileMode :=
| ModeRegular | ModeDir | ModeSymlink | ModeDevice | ModeNamedPipe | ModeSocket.

(** [os.FileInfo], the two methods the program calls. *)
Record FileInfo := mkFileInfo {
  Name : string;
  Mode : FileMode
}.

Definition IsDir (fi : FileInfo) : bool :=
  match Mode fi with ModeDir => true | _ => false end.

(** An entry that is neither a plain file nor a directory. *)
Definition irregular (fi : FileInfo) : bool :=
  match Mode fi with
  | ModeRegular | ModeDir => false
  | _ => true
  end.

(** Arguments of a [Fprintf] to standard error. *)
Inductive fmtarg :=
| AStr (s : string)
| AErr (e : error).

(** ** The operating system *)

Class OS := {
  FS : Type;
  (** [runtime.GOOS] *)
  GOOS : string;
  (** [filepath.Abs], [filepath.Join] (of a directory and one name),
      [filepath.Dir] *)
  filepath_Abs  : FS -> string -> error + string;
  filepath_Join : string -> string -> string;
  filepath_Dir  : string -> string;
  (** [f.Readdir(-1)] on the opened directory: entries in directory order *)
  os_Readdir    : FS -> string -> error + list FileInfo;
  (** [exec.LookPath]: whether the lookup succeeds *)
  exec_LookPath : FS -> string -> bool;
  (** [os.RemoveAll] *)
  os_RemoveAll  : string -> FS -> option error * FS;
  (** a child process run to completion: its error, its combined output and
      what it did to the file system *)
  exec_Run      : Cmd -> FS -> (option error * string) * FS
}.

(** Calls the program issues to its environment, in program order. *)
Inductive Event :=
| EvReadDir (path : string)
| EvLookPath (file : string)
| EvStdout (line : string)                        (* fmt.Fprintln(os.Stdout, line) *)
| EvStderr (format : string) (args : list fmtarg) (* fmt.Fprintf(os.Stderr, ...) *)
| EvRemoveAll (path : string)
| EvExec (c : Cmd).

(** How a call that recurses on the directory tree ends: it returns, or the
    fuel given to the recursion is used up. *)
Inductive outcome (A : Type) :=
| OutOfFuel
| Returned (a : A).
Arguments OutOfFuel {A}.

Section State.

Context {os : OS}.

Record World := mkWorld {
  fs : FS;
  trace : list Event
}.

(** ** A state monad over the world *)

Definition M (A : Type) : Type := World -> A * World.

Definition ret {A} (a : A) : M A := fun w => (a, w).

Definition bind {A B} (c : M A) (k : A -> M B) : M B :=
  fun w => let (a, w1) := c w in k a w1.

Definition emit (e : Event) : M unit :=
  fun w => (tt, mkWorld (fs w) (trace w ++ [e])).

End State.

Notation "x <- c ;; k" := (bind c (fun x => k))
  (at level 100, c at next level, right associativity).
Notation "c ;;; k" := (bind c (fun _ => k))
  (at level 100, right associativity).

Section Program.

Context {os : OS}.

(** ** Library calls *)

Definition Fprintln_Stdout (s : string) : M unit := emit (EvStdout s).

Definition Fprintf_Stderr (format : string) (args : list fmtarg) : M unit :=
  emit (EvStderr format args).

(** [sort.Slice(list, func(i, j) bool { return list[i].Name() < list[j].Name() })]
    as an insertion sort; names are unique in a directory, so every sort
    gives the same list. *)
Fixpoint insert_by_name (x : FileInfo) (l : list FileInfo) : list FileInfo :=
  match l with
  | [] => [x]
  | y :: l' => if (Name x <=? Name y)%string then x :: l
               else y :: insert_by_name x l'
  end.

Fixpoint sort_by_name (l : list FileInfo) : list FileInfo :=
  match l with
  | [] => []
  | x :: l' => insert_by_name x (sort_by_name l')
  end.

(** [ioutil.ReadDir]: the entries of the directory, sorted by file name. *)
Definition ioutil_ReadDir (dirname : string) : M (error + list FileInfo) :=
  fun w =>
    let w1 := mkWorld (fs w) (trace w ++ [EvReadDir dirname]) in
    match os_Readdir (fs w) dirname with
    | inl err => (inl err, w1)
    | inr list => (inr (sort_by_name list), w1)
    end.

Definition LookPath (file : string) : M bool :=
  fun w => (exec_LookPath (fs w) file,
            mkWorld (fs w) (trace w ++ [EvLookPath file])).

Definition RemoveAll (path : string) : M (option error) :=
  fun w =>
    let (err, fs1) := os_RemoveAll path (fs w) in
    (err, mkWorld fs1 (trace w ++ [EvRemoveAll path])).

(** [cmd.Run()] with [cmd.Stdout] and [cmd.Stderr] unset: the output of the
    child goes to the null device. *)
Definition cmd_Run (c : Cmd) : M (option error) :=
  fun w =>
    let '(err, _, fs1) := exec_Run c (fs w) in
    (err, mkWorld fs1 (trace w ++ [EvExec c])).

(** [cmd.CombinedOutput()]: the output of the child is captured. *)
Definition cmd_CombinedOutput (c : Cmd) : M (string * option error) :=
  fun w =>
    let '(err, out, fs1) := exec_Run c (fs w) in
    ((out, err), mkWorld fs1 (trace w ++ [EvExec c])).

(** ** The [Task] interface and the [runner] struct *)

Record Task := mkTask {
  Available : M bool;
  Matches : string -> M bool;
  Run : string -> M (option error)
}.

Record runner := mkRunner {
  available : M bool;
  matches : string -> M bool;
  run : string -> M (option error)
}.

(** The three methods of [runner], which make it a [Task]. *)
Definition runner_Task (r : runner) : Task :=
  {| Available := available r;
     Matches := fun name => matches r name;
     Run := fun path => run r path |}.

(** ** Walk *)

(** Lines 49-56: the tasks tried on one file entry.  [Some r]: some task
    matched and [Walk] returns [r]. *)
Fixpoint try_tasks (path : string) (entry : FileInfo) (tasks : list Task)
  : M (option (option error)) :=
  match tasks with
  | [] => ret None
  | task :: tasks' =>
      b <- Matches task (Name entry) ;;
      if b then
        Fprintln_Stdout (filepath_Join path (Name entry)) ;;;
        r <- Run task (filepath_Join path (Name entry)) ;;
        ret (Some r)
      else try_tasks path entry tasks'
  end.

(** Lines 45-57: the loop over files. *)
Fixpoint first_loop (path : string) (tasks : list Task) (entries : list FileInfo)
  : M (option (option error)) :=
  match entries with
  | [] => ret None
  | entry :: entries' =>
      if IsDir entry then first_loop path tasks entries'
      else
        m <- try_tasks path entry tasks ;;
        match m with
        | Some r => ret (Some r)
        | None => first_loop path tasks entries'
        end
  end.

(** Lines 59-69: the loop over directories; [walk] is the recursive call. *)
Fixpoint second_loop (walk : string -> list Task -> M (outcome (option error)))
    (path : string) (tasks : list Task) (entries : list FileInfo)
  : M (outcome (option error)) :=
  match entries with
  | [] => ret (Returned None)
  | entry :: entries' =>
      if IsDir entry then
        r <- walk (filepath_Join path (Name entry)) tasks ;;
        match r with
        | Returned None => second_loop walk path tasks entries'
        | Returned (Some err) => ret (Returned (Some err))
        | OutOfFuel => ret OutOfFuel
        end
      else second_loop walk path tasks entries'
  end.

Fixpoint Walk (fuel : nat) (path : string) (tasks : list Task)
  : M (outcome (option error)) :=
  match fuel with
  | 0 => ret OutOfFuel
  | S fuel' =>
      r <- ioutil_ReadDir path ;;
      match r with
      | inl err =>
          ret (Returned (Some
            (Errorf "failed to read file entries of directory %q: %w" path err)))
      | inr entries =>
          m <- first_loop path tasks entries ;;
          match m with
          | Some r => ret (Returned r)
          | None => second_loop (Walk fuel') path tasks entries
          end
      end
  end.

(** ** The catalogue, lines 97-166 *)

Definition appName (name : string) : string :=
  if GOOS =? "windows" then name ++ ".exe" else name.

(** [strings.ToLower] on the ASCII letters (the suffixes tested below are
    ASCII, and no other letter lowers to one of theirs). *)
Definition lower_byte (c : ascii) : ascii :=
  let n := nat_of_ascii c in
  if ((65 <=? n) && (n <=? 90))%nat then ascii_of_nat (n + 32) else c.

Fixpoint strings_ToLower (s : string) : string :=
  match s with
  | EmptyString => EmptyString
  | String c s' => String (lower_byte c) (strings_ToLower s')
  end.

(** [strings.HasSuffix]:
    [len(s) >= len(suffix) && s[len(s)-len(suffix):] == suffix]. *)
Definition strings_HasSuffix (s suffix : string) : bool :=
  (String.length suffix <=? String.length s)%nat &&
  (substring (String.length s - String.length suffix) (String.length suffix) s
     =? suffix).

Definition runner_composer : runner :=
  {| available := LookPath "composer";
     matches := fun s => ret (s =? "composer.json");
     run := fun path =>
       let dir := filepath_Join (filepath_Dir path) "vendor" in
       err <- RemoveAll dir ;;
       match err with
       | Some e =>
           if os_IsNotExist e
           then ret (Some (Errorf "failed to remove path %s: %w" dir e))
           else ret None
       | None => ret None
       end |}.

Definition runner_npm : runner :=
  {| available := LookPath "npm";
     matches := fun s => ret (s =? "package.json");
     run := fun path =>
       let dir := filepath_Join (filepath_Dir path) "node_modules" in
       err <- RemoveAll dir ;;
       match err with
       | Some e =>
           if os_IsNotExist e
           then ret (Some (Errorf "failed to remove path %s: %w" dir e))
           else ret None
       | None => ret None
       end |}.

Definition runner_cargo : runner :=
  {| available := LookPath (appName "cargo");
     matches := fun s => ret ((s =? "Cargo.toml") || (s =? "cargo.toml"));
     run := fun path =>
       let cmd := mkCmd (appName "cargo") ["clean"] (filepath_Dir path) in
       err <- cmd_Run cmd ;;
       match err with
       | Some e =>
           ret (Some (Errorf "failed to run command %q: %w" (Cmd_String cmd) e))
       | None => ret None
       end |}.

Definition runner_dotnet : runner :=
  {| available := LookPath (appName "dotnet");
     matches := fun s =>
       ret (strings_HasSuffix (strings_ToLower s) ".csproj"
            || strings_HasSuffix (strings_ToLower s) ".sln");
     run := fun path =>
       let cmd := mkCmd (appName "dotnet") ["clean"; "--nologo"]
                        (filepath_Dir path) in
       res <- cmd_CombinedOutput cmd ;;
       match res with
       | (out, Some e) =>
           Fprintf_Stderr "failed to run command %q: %v\n%s\n"
             [AStr (Cmd_String cmd); AErr e; AStr out] ;;;
           ret None
       | (_, None) => ret None
       end |}.

Definition runners : list runner :=
  [runner_composer; runner_npm; runner_cargo; runner_dotnet].

(** Lines 170-173: the function every [run] is replaced by under [-dry]. *)
Definition dry_run (path : string) : M (option error) :=
  Fprintln_Stdout path ;;;
  ret None.

Definition set_run (r : runner) (f : string -> M (option error)) : runner :=
  {| available := available r; matches := matches r; run := f |}.

(** Lines 167-175. *)
Definition apply_dry (flagDry : bool) (rs : list runner) : list runner :=
  if flagDry then map (fun r => set_run r dry_run) rs else rs.

(** Lines 177-183: the runners whose tool is installed, in order. *)
Fixpoint keep_available (tasks : list Task) (rs : list runner) : M (list Task) :=
  match rs with
  | [] => ret tasks
  | r :: rs' =>
      b <- Available (runner_Task r) ;;
      keep_available (if b then tasks ++ [runner_Task r] else tasks) rs'
  end.

(** ** The cache-clearing functions, lines 218-248 *)

Definition run_or_wrap (cmd : Cmd) : M (option error) :=
  err <- cmd_Run cmd ;;
  match err with
  | Some e => ret (Some (Errorf "failed to run command %q: %w" (Cmd_String cmd) e))
  | None => ret None
  end.

Definition clearCachesGo : M (option error) :=
  e1 <- run_or_wrap (mkCmd (appName "go") ["clean"; "-cache"] "") ;;
  match e1 with
  | Some e => ret (Some e)
  | None =>
      e2 <- run_or_wrap (mkCmd (appName "go") ["clean"; "-modcache"] "") ;;
      match e2 with
      | Some e => ret (Some e)
      | None => run_or_wrap (mkCmd (appName "go") ["clean"; "-testcache"] "")
      end
  end.

Definition clearCachesComposer : M (option error) :=
  run_or_wrap (mkCmd "composer" ["--no-interaction"; "clear-cache"] "").

Definition clearCachesNpm : M (option error) :=
  run_or_wrap (mkCmd "npm" ["cache"; "clean"; "--force"] "").

(** ** main *)

Definition successExitCode := 0.
Definition errorExitCode := 1.
Definition errorParseExitCode := 2.

(** Lines 195-208, after a traversal without error; the value is the exit
    code ([os.Exit] ends the program there). *)
Definition clear_caches (flagDry : bool) : M nat :=
  if negb flagDry then
    e1 <- clearCachesGo ;;
    match e1 with
    | Some err =>
        Fprintf_Stderr "purging go cache failed with an error: %v\n" [AErr err] ;;;
        ret errorExitCode
    | None =>
        e2 <- clearCachesComposer ;;
        match e2 with
        | Some err =>
            Fprintf_Stderr "purging composer cache failed with an error: %v\n"
              [AErr err] ;;;
            ret errorExitCode
        | None =>
            e3 <- clearCachesNpm ;;
            match e3 with
            | Some err =>
                Fprintf_Stderr "purging npm cache failed with an error: %v\n"
                  [AErr err] ;;;
                ret errorExitCode
            | None => ret successExitCode
            end
        end
    end
  else ret successExitCode.

(** Lines 84-88: the root directory named on the command line. *)
Definition root_path (args : list string) : string :=
  match args with
  | a :: _ => if a =? "" then "." else a
  | [] => "."
  end.

(** [main] from line 82 on, after [flag.Parse] has returned: [flagDry] is
    the parsed value of [-dry], [args] are the positional arguments
    ([flag.Args()]); [fuel] bounds the depth of the recursion of [Walk].
    [flag.Parse] itself (lines 79-81), which ends the program on a command
    line it refuses, is not part of the definition. *)
Definition main (fuel : nat) (flagDry : bool) (args : list string)
  : M (outcome nat) :=
  let path := root_path args in
  fun w =>
  match filepath_Abs (fs w) path with
  | inl err =>
      (Fprintf_Stderr "failed to parse given path %s: %v\n" [AStr path; AErr err] ;;;
       ret (Returned errorParseExitCode)) w
  | inr absPath =>
      (tasks <- keep_available [] (apply_dry flagDry runners) ;;
       if (length tasks =? 0)%nat then
         Fprintf_Stderr
           "no valid package managers found (tried cargo, composer, npm)\n" [] ;;;
         ret (Returned errorParseExitCode)
       else
         r <- Walk fuel absPath tasks ;;
         match r with
         | OutOfFuel => ret OutOfFuel
         | Returned (Some err) =>
             Fprintf_Stderr "purging failed with an error: %v\n" [AErr err] ;;;
             ret (Returned errorExitCode)
         | Returned None =>
             code <- clear_caches flagDry ;;
             ret (Returned code)
         end) w
  end.

End Program.

(** ** A concrete operating system

    A table of directories, enough to run the program on explicit inputs:
    slash-separated absolute paths, a list of paths that cannot be removed,
    the tools found on the search path and the tools that exit non-zero. *)

Module Toy.

Record ToyFS := mkToyFS {
  dirs : list (string * (Errno + list FileInfo));
  locked : list string;        (* removal fails with EACCES *)
  installed : list string;     (* executables on the search path *)
  failing : list string;       (* executables that exit with status 1 *)
  cwd : option string          (* the working directory, when it can be read *)
}.

Definition mem (x : string) (l : list string) : bool :=
  existsb (String.eqb x) l.

Fixpoint lookup {A} (k : string) (l : list (string * A)) : option A :=
  match l with
  | [] => None
  | (k', v) :: l' => if k =? k' then Some v else lookup k l'
  end.

Definition Join (dir name : string) : string :=
  if dir =? "/" then "/" ++ name else dir ++ "/" ++ name.

(** The part of [s] before its last slash, when it has one. *)
Fixpoint before_last_slash (s : string) : option string :=
  match s with
  | EmptyString => None
  | String c s' =>
      match before_last_slash s' with
      | Some d => Some (String c d)
      | None => if Ascii.eqb c "/" then Some EmptyString else None
      end
  end.

Definition Dir (path : string) : string :=
  match before_last_slash path with
  | Some EmptyString => "/"
  | Some d => d
  | None => "."
  end.

Definition Abs (t : ToyFS) (path : string) : error + string :=
  if String.prefix "/" path then inr path
  else match cwd t with
       | None => inl (PathError "getwd" "." ENOENT)
       | Some d => inr (if path =? "." then d else Join d path)
       end.

Definition Readdir (t : ToyFS) (path : string) : error + list FileInfo :=
  match lookup path (dirs t) with
  | None => inl (PathError "open" path ENOENT)
  | Some (inl no) => inl (PathError "open" path no)
  | Some (inr l) => inr l
  end.

(** Removal of [path] and of what is below it; absent is not an error. *)
Definition RemoveAll (path : string) (t : ToyFS) : option error * ToyFS :=
  if mem path (locked t) then (Some (PathError "unlinkat" path EACCES), t)
  else
    let keep (d : string * (Errno + list FileInfo)) :=
      negb ((fst d =? path) || String.prefix (path ++ "/") (fst d)) in
    let prune (d : string * (Errno + list FileInfo)) :=
      match snd d with
      | inr l => (fst d, inr (filter (fun e => negb (Join (fst d) (Name e) =? path)) l))
      | inl no => d
      end in
    (None, mkToyFS (map prune (filter keep (dirs t)))
                   (locked t) (installed t) (failing t) (cwd t)).

(** Child processes leave the table as it is. *)
Definition Exec (c : Cmd) (t : ToyFS) : (option error * string) * ToyFS :=
  if negb (mem (cmd_Name c) (installed t)) then ((Some (ExecError (cmd_Name c)), ""), t)
  else if mem (cmd_Name c) (failing t) then ((Some (ExitError 1), "build failed"), t)
  else ((None, ""), t).

Definition toy : OS :=
  {| FS := ToyFS;
     GOOS := "linux";
     filepath_Abs := Abs;
     filepath_Join := Join;
     filepath_Dir := Dir;
     os_Readdir := Readdir;
     exec_LookPath := fun t file => mem file (installed t);
     os_RemoveAll := RemoveAll;
     exec_Run := Exec |}.

Definition file (name : string) : FileInfo := mkFileInfo name ModeRegular.
Definition dir (name : string) : FileInfo := mkFileInfo name ModeDir.
Definition symlink (name : string) : FileInfo := mkFileInfo name ModeSymlink.

Definition start (t : ToyFS) : @World toy := @mkWorld toy t [].

End Toy.

(** ** Vocabulary of the properties *)

Section Vocabulary.

Context {os : OS}.

(** What was written to standard output, one element per [Fprintln]. *)
Fixpoint stdout_lines (tr : list Event) : list string :=
  match tr with
  | [] => []
  | EvStdout l :: tr' => l :: stdout_lines tr'
  | _ :: tr' => stdout_lines tr'
  end.

(** Writes to standard output, removals and child processes. *)
Definition observable (e : Event) : bool :=
  match e with
  | EvStdout _ | EvRemoveAll _ | EvExec _ => true
  | _ => false
  end.

(** Removals and child processes. *)
Definition mutation (e : Event) : bool :=
  match e with
  | EvRemoveAll _ | EvExec _ => true
  | _ => false
  end.

(** [w'] is reached from [w] by issuing the calls [d]. *)
Definition extends (w w' : World) (d : list Event) : Prop :=
  trace w' = trace w ++ d.

(** The rows of the catalogue. *)
Inductive tool := Composer | Npm | Cargo | Dotnet.

Definition runner_of (k : tool) : runner :=
  match k with
  | Composer => runner_composer
  | Npm => runner_npm
  | Cargo => runner_cargo
  | Dotnet => runner_dotnet
  end.

(** The file names a row is for. *)
Definition manifest (k : tool) (s : string) : bool :=
  match k with
  | Composer => s =? "composer.json"
  | Npm => s =? "package.json"
  | Cargo => (s =? "Cargo.toml") || (s =? "cargo.toml")
  | Dotnet => strings_HasSuffix (strings_ToLower s) ".csproj"
              || strings_HasSuffix (strings_ToLower s) ".sln"
  end.

(** The call by which the action of a row shows in the trace when it runs
    on the manifest [path]; under [-dry], the line of the stub. *)
Definition action (dry : bool) (k : tool) (path : string) : Event :=
  if dry then EvStdout path
  else match k with
       | Composer => EvRemoveAll (filepath_Join (filepath_Dir path) "vendor")
       | Npm => EvRemoveAll (filepath_Join (filepath_Dir path) "node_modules")
       | Cargo => EvExec (mkCmd (appName "cargo") ["clean"] (filepath_Dir path))
       | Dotnet => EvExec (mkCmd (appName "dotnet") ["clean"; "--nologo"]
                                 (filepath_Dir path))
       end.

(** A match: the row that fired and the path of the manifest. *)
Definition fired : Type := tool * string.

(** What a match leaves in the trace: the line of [Walk], then the action. *)
Definition block (dry : bool) (m : fired) : list Event :=
  [EvStdout (snd m); action dry (fst m) (snd m)].

(** A match is on a file of a listed directory whose name the row is for. *)
Definition genuine (m : fired) : Prop :=
  exists dir name, snd m = filepath_Join dir name /\ manifest (fst m) name = true.

(** The lines a match puts on standard output. *)
Definition lines (dry : bool) (m : fired) : list string :=
  if dry then [snd m; snd m] else [snd m].

(** From [w] to [w'] the program wrote to standard output, removed files and
    ran child processes exactly as the matches [ms] do, in their order. *)
Definition steps (dry : bool) (w w' : World) (ms : list fired) : Prop :=
  exists d, extends w w' d /\
            filter observable d = flat_map (block dry) ms /\
            Forall genuine ms.

(** From [w] to [w'] the file system is the same and the program neither
    removed a file nor ran a child process. *)
Definition quiet (w w' : World) : Prop :=
  fs w' = fs w /\
  exists d, extends w w' d /\ forallb (fun e => negb (mutation e)) d = true.

Definition tools : list tool := [Composer; Npm; Cargo; Dotnet].

(** The executable a row needs. *)
Definition executable (k : tool) : string :=
  match k with
  | Composer => "composer"
  | Npm => "npm"
  | Cargo => appName "cargo"
  | Dotnet => appName "dotnet"
  end.

(** The row as [main] registers it, with or without [-dry]. *)
Definition entry (dry : bool) (k : tool) : runner :=
  if dry then set_run (runner_of k) dry_run else runner_of k.

(** The lookups of the availability filter. *)
Definition lookups : list Event := map (fun k => EvLookPath (executable k)) tools.

(** Every task is a row of the catalogue. *)
Definition catalogue_tasks (dry : bool) (tasks : list Task) : Prop :=
  forall t, In t tasks -> exists k, t = runner_Task (entry dry k).

(** The tasks [main] hands to [Walk] on the file system [f]. *)
Definition tasks_for (dry : bool) (f : FS) : list Task :=
  fst (keep_available [] (apply_dry dry runners) (mkWorld f [])).

(** The verdict of each of [tasks] on a name does not depend on the state
    (calling the predicate may still change the state). *)
Definition stable (verdict : Task -> string -> bool) (tasks : list Task) : Prop :=
  forall t, In t tasks ->
  forall name w, fst (Matches t name w) = verdict t name.

(** The state after the match predicates of [tasks] were called on [name],
    in order. *)
Fixpoint tested (tasks : list Task) (name : string) (w : World) : World :=
  match tasks with
  | [] => w
  | t :: ts => tested ts name (snd (Matches t name w))
  end.

(** The state after every task was tried on every file of [entries]. *)
Fixpoint tested_files (tasks : list Task) (entries : list FileInfo) (w : World)
  : World :=
  match entries with
  | [] => w
  | e :: es =>
      tested_files tasks es (if IsDir e then w else tested tasks (Name e) w)
  end.

(** [Walk] on [path] consists of the listing, the line for [file] and the
    call of [Run t] on [file], after the match predicates [before]. *)
Definition fires_only (fuel : nat) (path : string) (tasks : list Task)
    (t : Task) (file : string) (before : World -> World) (w : World) : Prop :=
  Walk (S fuel) path tasks w =
    let w1 := snd (ioutil_ReadDir path w) in
    let w2 := snd (Fprintln_Stdout file (before w1)) in
    let (r, w3) := Run t file w2 in
    (Returned r, w3).

(** The matches of a run from [w] to [w']: the trace splits into what comes
    before the traversal, the traversal and what comes after; the traversal
    shows the matches [ms], in their order, and standard output is written
    to during the traversal only. *)
Definition matches_of_run (dry : bool) (w w' : World) (ms : list fired) : Prop :=
  exists pre wd post,
    extends w w' (pre ++ wd ++ post) /\
    stdout_lines pre = [] /\ stdout_lines post = [] /\
    filter observable wd = flat_map (block dry) ms /\
    Forall genuine ms.

(** Standard output carries exactly one line per match, its path. *)
Definition one_line_per_match (fuel : nat) (dry : bool) (args : list string)
    (w : World) : Prop :=
  let w' := snd (main fuel dry args w) in
  forall ms, matches_of_run dry w w' ms ->
    stdout_lines (trace w') = stdout_lines (trace w) ++ map snd ms.

(** In the directory [path], the composer row is the one that fires, on
    [composer.json], and nothing else happens there. *)
Definition composer_fires (dry : bool) (fuel : nat) (path : string)
    (tasks : list Task) (w : World) : Prop :=
  fires_only fuel path tasks (runner_Task (entry dry Composer))
    (filepath_Join path "composer.json") (fun w1 => w1) w.

(** The entries of [path] that are neither plain files nor directories are
    left out of both passes of [Walk]: their path is neither printed as a
    match nor listed. *)
Definition excluded_from_both_passes (fuel : nat) (path : string)
    (tasks : list Task) (w : World) : Prop :=
  forall l e, os_Readdir (fs w) path = inr l -> In e l -> irregular e = true ->
    let tr := trace (snd (Walk fuel path tasks w)) in
    ~ In (EvStdout (filepath_Join path (Name e))) tr /\
    ~ In (EvReadDir (filepath_Join path (Name e))) tr.

(** Entries in the order of their names. *)
Definition name_le (a b : FileInfo) : Prop := (Name a <=? Name b) = true.

(** An irregular entry seen as the plain file of that name. *)
Definition as_plain_file (e : FileInfo) : FileInfo :=
  if irregular e then mkFileInfo (Name e) ModeRegular else e.

(** Follows the specification: the global cache-clearing commands, in their
    fixed order, each with the diagnostic of its phase. *)
Definition cache_commands : list (string * Cmd) :=
  [("purging go cache failed with an error: %v\n",
    mkCmd (appName "go") ["clean"; "-cache"] "");
   ("purging go cache failed with an error: %v\n",
    mkCmd (appName "go") ["clean"; "-modcache"] "");
   ("purging go cache failed with an error: %v\n",
    mkCmd (appName "go") ["clean"; "-testcache"] "");
   ("purging composer cache failed with an error: %v\n",
    mkCmd "composer" ["--no-interaction"; "clear-cache"] "");
   ("purging npm cache failed with an error: %v\n",
    mkCmd "npm" ["cache"; "clean"; "--force"] "")].

(** Follows the specification: the commands run one after the other; the
    first that fails is reported, the exit code is 1 and the remaining ones
    are skipped. *)
Fixpoint clear_all (cs : list (string * Cmd)) : M nat :=
  match cs with
  | [] => ret 0
  | (diagnostic, c) :: cs' =>
      err <- cmd_Run c ;;
      match err with
      | Some e =>
          Fprintf_Stderr diagnostic
            [AErr (Errorf "failed to run command %q: %w" (Cmd_String c) e)] ;;;
          ret 1
      | None => clear_all cs'
      end
  end.

(** The file system after the calls [d] were issued on [f]: removals and
    child processes change it, the other calls leave it as it is. *)
Fixpoint replay (f : FS) (d : list Event) : FS :=
  match d with
  | [] => f
  | EvRemoveAll p :: d' => replay (snd (os_RemoveAll p f)) d'
  | EvExec c :: d' => replay (snd (exec_Run c f)) d'
  | _ :: d' => replay f d'
  end.

(** Among the calls [before], issued from the file system [f0] on, there is
    a listing of [dir], and [e] is one of the entries the system returned
    for it at that moment. *)
Definition listed_entry (f0 : FS) (before : list Event) (dir : string)
    (e : FileInfo) : Prop :=
  exists pre post l,
    before = pre ++ EvReadDir dir :: post /\
    os_Readdir (replay f0 pre) dir = inr l /\
    In e l.

(** The last of the calls [before] is the line for the file [e] of [dir],
    an entry of a listing of [dir] that is not a directory. *)
Definition match_line (f0 : FS) (before : list Event) (dir : string)
    (e : FileInfo) : Prop :=
  exists pre,
    before = pre ++ [EvStdout (filepath_Join dir (Name e))] /\
    listed_entry f0 pre dir e /\ IsDir e = false.

(** What entitles a traversal to a call, given the calls before it:
    - a listing is that of a directory entry of an earlier listing;
    - a line is the path of a non-directory entry of an earlier listing;
    - a removal comes right after the line for a [composer.json] and is
      that of its [vendor] sibling, or right after the line for a
      [package.json] and is that of its [node_modules] sibling;
    - a child process comes right after the line for a file and runs in
      the directory of that file. *)
Definition justified (f0 : FS) (before : list Event) (ev : Event) : Prop :=
  match ev with
  | EvReadDir p =>
      exists dir e, listed_entry f0 before dir e /\ IsDir e = true /\
                    p = filepath_Join dir (Name e)
  | EvStdout m =>
      exists dir e, listed_entry f0 before dir e /\ IsDir e = false /\
                    m = filepath_Join dir (Name e)
  | EvRemoveAll p =>
      exists dir e, match_line f0 before dir e /\
        ((Name e = "composer.json" /\
          p = filepath_Join (filepath_Dir (filepath_Join dir (Name e))) "vendor")
         \/
         (Name e = "package.json" /\
          p = filepath_Join (filepath_Dir (filepath_Join dir (Name e)))
                "node_modules"))
  | EvExec c =>
      exists dir e, match_line f0 before dir e /\
        cmd_Dir c = filepath_Dir (filepath_Join dir (Name e))
  | EvStderr _ _ => True
  | EvLookPath _ => False
  end.

(** Each of the calls [d] is justified by the calls before it. *)
Fixpoint all_justified (f0 : FS) (before d : list Event) : Prop :=
  match d with
  | [] => True
  | ev :: d' => justified f0 before ev /\ all_justified f0 (before ++ [ev]) d'
  end.

(** The calls [d] of a traversal of [root] that starts after the calls
    [before]: none, or the listing of [root] followed by justified calls. *)
Definition rooted (f0 : FS) (before : list Event) (root : string)
    (d : list Event) : Prop :=
  d = [] \/
  exists d', d = EvReadDir root :: d' /\
             all_justified f0 (before ++ [EvReadDir root]) d'.

(** From [w], reached by the calls [before], to [w'] the program issued
    justified calls only, and the file system changed as they make it. *)
Definition advances (f0 : FS) (before : list Event) (w w' : World) : Prop :=
  exists d, extends w w' d /\
            fs w' = replay f0 (before ++ d) /\
            all_justified f0 before d.

(** The call an error of the traversal reports: the listing, the removal or
    the child process that failed, named in the error. *)
Definition failing_call (err : error) (ev : Event) : Prop :=
  (exists p e,
     err = Errorf "failed to read file entries of directory %q: %w" p e /\
     ev = EvReadDir p) \/
  (exists d e,
     err = Errorf "failed to remove path %s: %w" d e /\ ev = EvRemoveAll d) \/
  (exists c e,
     err = Errorf "failed to run command %q: %w" (Cmd_String c) e /\
     ev = EvExec c).

(** On the file system [f], the tree of directories at [path] is at most
    [n] levels deep: the directory cannot be listed, or its subdirectories
    are at most [n - 1] levels deep. *)
Inductive bounded (f : FS) : nat -> string -> Prop :=
| bounded_unreadable n path e :
    os_Readdir f path = inl e -> bounded f (S n) path
| bounded_dir n path l :
    os_Readdir f path = inr l ->
    (forall x, In x l -> IsDir x = true ->
       bounded f n (filepath_Join path (Name x))) ->
    bounded f (S n) path.

End Vocabulary.

(** ** Explicit inputs *)

Module Inputs.

Import Toy.

(** A project with its installed packages, npm at hand. *)
Definition project : ToyFS :=
  mkToyFS
    [("/tmp/a", inr [file "package.json"; dir "node_modules"; dir "src"]);
     ("/tmp/a/node_modules", inr [dir "left-pad"]);
     ("/tmp/a/node_modules/left-pad", inr [file "index.js"]);
     ("/tmp/a/src", inr [file "app.js"])]
    [] ["npm"; "composer"; "go"] [] (Some "/tmp/a").

(** A project whose cache directories cannot be removed. *)
Definition locked_project : ToyFS :=
  mkToyFS
    [("/p", inr [file "composer.json"; file "package.json";
                 dir "vendor"; dir "node_modules"]);
     ("/p/vendor", inr [file "autoload.php"]);
     ("/p/node_modules", inr [file "x.js"])]
    ["/p/vendor"; "/p/node_modules"] ["composer"; "npm"; "go"] [] (Some "/p").

(** A directory whose [package.json] is a symbolic link. *)
Definition linked : ToyFS :=
  mkToyFS [("/r", inr [symlink "package.json"; dir "node_modules"]);
           ("/r/node_modules", inr [])]
          [] ["npm"] [] (Some "/r").

(** Three manifests side by side, with cargo at hand as well. *)
Definition three_manifests : ToyFS :=
  mkToyFS [("/r", inr [file "package.json"; file "composer.json";
                       file "Cargo.toml"; dir "vendor"]);
           ("/r/vendor", inr [])]
          [] ["composer"; "npm"; "cargo"] [] (Some "/r").

(** Two manifests side by side, and a project file that sorts after them. *)
Definition two_manifests : ToyFS :=
  mkToyFS [("/r", inr [file "site.csproj"; file "package.json";
                       file "composer.json"; dir "vendor"; file "README.md"]);
           ("/r/vendor", inr [])]
          [] ["composer"; "npm"; "dotnet"] [] (Some "/r").

(** A dotnet project that does not build, next to an npm project. *)
Definition workspace : ToyFS :=
  mkToyFS [("/w", inr [dir "web"; dir "api"]);
           ("/w/api", inr [file "Api.csproj"; dir "obj"]);
           ("/w/api/obj", inr []);
           ("/w/web", inr [file "package.json"; dir "node_modules"]);
           ("/w/web/node_modules", inr [])]
          [] ["dotnet"; "npm"; "go"; "composer"] ["dotnet"] (Some "/w").

(** A crate whose [cargo clean] fails. *)
Definition crate : ToyFS :=
  mkToyFS [("/c", inr [dir "src"; file "Cargo.toml"]);
           ("/c/src", inr [])]
          [] ["cargo"] ["cargo"] (Some "/c").

(** A tree with a directory that cannot be read. *)
Definition guarded : ToyFS :=
  mkToyFS [("/g", inr [dir "secret"; dir "open"]);
           ("/g/open", inr [file "notes.txt"]);
           ("/g/secret", inl EACCES)]
          [] ["npm"] [] (Some "/g").

(** The same project on a machine without any of the tools. *)
Definition bare : ToyFS :=
  mkToyFS (dirs project) [] [] [] (Some "/tmp/a").

(** A machine with npm only: the go tool of the cache clearing is missing. *)
Definition npm_only : ToyFS :=
  mkToyFS (dirs project) [] ["npm"] [] (Some "/tmp/a").

(** The verdict of a task in the initial state of [t]. *)
Definition verdict_in (t : ToyFS) (task : @Task toy) (name : string) : bool :=
  fst (Matches task name (start t)).

End Inputs.

(** * Properties *)

Section Properties.

Context {os : OS}.

Implicit Types (w : World) (tasks : list Task) (entries : list FileInfo).

(** ** The monad *)

Lemma bind_run A B (c : M A) (k : A -> M B) w :
  bind c k w = k (fst (c w)) (snd (c w)).
Proof. unfold bind. destruct (c w); reflexivity. Qed.

Lemma pair_eta A B (p : A * B) : p = (fst p, snd p).
Proof. destruct p; reflexivity. Qed.

(** ** The first loop *)

Section FirstLoop.

Variable verdict : Task -> string -> bool.

Lemma stable_cons t tasks : stable verdict (t :: tasks) -> stable verdict tasks.
Proof. intros H t' Ht'. apply H. now right. Qed.

Lemma try_tasks_miss path e tasks w :
  stable verdict tasks ->
  (forall t, In t tasks -> verdict t (Name e) = false) ->
  try_tasks path e tasks w = (None, tested tasks (Name e) w).
Proof.
  revert w. induction tasks as [|t ts IH]; intros w Hst Hno; simpl.
  - reflexivity.
  - rewrite bind_run, (Hst t (or_introl eq_refl)), (Hno t (or_introl eq_refl)).
    apply IH.
    + eapply stable_cons; eassumption.
    + intros t' Ht'. apply Hno. now right.
Qed.

Lemma tested_app ts1 ts2 name w :
  tested (ts1 ++ ts2) name w = tested ts2 name (tested ts1 name w).
Proof. revert w. induction ts1; intros w; simpl; auto. Qed.

Lemma try_tasks_hit path e tpre t tpost w :
  stable verdict (tpre ++ t :: tpost) ->
  (forall t', In t' tpre -> verdict t' (Name e) = false) ->
  verdict t (Name e) = true ->
  try_tasks path e (tpre ++ t :: tpost) w =
    let file := filepath_Join path (Name e) in
    let w2 := snd (Fprintln_Stdout file (tested (tpre ++ [t]) (Name e) w)) in
    (Some (fst (Run t file w2)), snd (Run t file w2)).
Proof.
  revert w. induction tpre as [|t0 ts IH]; intros w Hst Hno Hyes; simpl.
  - rewrite bind_run, (Hst t (or_introl eq_refl)), Hyes.
    rewrite !bind_run. reflexivity.
  - rewrite bind_run, (Hst t0 (or_introl eq_refl)), (Hno t0 (or_introl eq_refl)).
    apply IH; auto.
    + eapply stable_cons; eassumption.
    + intros t' Ht'. apply Hno. now right.
Qed.

Lemma first_loop_miss path tasks entries w :
  stable verdict tasks ->
  (forall x, In x entries -> IsDir x = false ->
     forall t, In t tasks -> verdict t (Name x) = false) ->
  first_loop path tasks entries w = (None, tested_files tasks entries w).
Proof.
  intros Hst. revert w. induction entries as [|x xs IH]; intros w Hno; simpl.
  - reflexivity.
  - destruct (IsDir x) eqn:Hd.
    + apply IH. intros y Hy. apply Hno. now right.
    + rewrite bind_run, try_tasks_miss; auto.
      * simpl. apply IH. intros y Hy. apply Hno. now right.
      * apply Hno; auto. now left.
Qed.

Lemma tested_files_app tasks l1 l2 w :
  tested_files tasks (l1 ++ l2) w = tested_files tasks l2 (tested_files tasks l1 w).
Proof. revert w. induction l1; intros w; simpl; auto. Qed.

Lemma first_loop_hit path pre e post tpre t tpost w :
  stable verdict (tpre ++ t :: tpost) ->
  (forall x, In x pre -> IsDir x = false ->
     forall t', In t' (tpre ++ t :: tpost) -> verdict t' (Name x) = false) ->
  IsDir e = false ->
  (forall t', In t' tpre -> verdict t' (Name e) = false) ->
  verdict t (Name e) = true ->
  first_loop path (tpre ++ t :: tpost) (pre ++ e :: post) w =
    let file := filepath_Join path (Name e) in
    let w1 := tested (tpre ++ [t]) (Name e)
                (tested_files (tpre ++ t :: tpost) pre w) in
    let w2 := snd (Fprintln_Stdout file w1) in
    (Some (fst (Run t file w2)), snd (Run t file w2)).
Proof.
  intros Hst Hpre He Hno Hyes. revert w Hpre.
  induction pre as [|x xs IH]; intros w Hpre; simpl.
  - rewrite He, bind_run, try_tasks_hit; auto.
  - destruct (IsDir x) eqn:Hd.
    + apply IH. intros y Hy. apply Hpre. now right.
    + rewrite bind_run, try_tasks_miss; auto.
      * simpl. apply IH. intros y Hy. apply Hpre. now right.
      * apply Hpre; auto. now left.
Qed.

Lemma Walk_hit fuel path pre e post tpre t tpost w :
  stable verdict (tpre ++ t :: tpost) ->
  fst (ioutil_ReadDir path w) = inr (pre ++ e :: post) ->
  (forall x, In x pre -> IsDir x = false ->
     forall t', In t' (tpre ++ t :: tpost) -> verdict t' (Name x) = false) ->
  IsDir e = false ->
  (forall t', In t' tpre -> verdict t' (Name e) = false) ->
  verdict t (Name e) = true ->
  fires_only fuel path (tpre ++ t :: tpost) t (filepath_Join path (Name e))
    (fun w1 => tested (tpre ++ [t]) (Name e)
                 (tested_files (tpre ++ t :: tpost) pre w1)) w.
Proof.
  intros Hst Hrd Hpre He Hno Hyes. unfold fires_only.
  cbn [Walk]. rewrite bind_run, Hrd, bind_run.
  rewrite first_loop_hit by assumption. cbn [fst snd]. unfold ret.
  now destruct (Run t _ _).
Qed.

End FirstLoop.

(** C4: in a directory that [Walk] lists, let [e] be the first entry that is
    not a directory and whose name some task matches, and [t] the first task
    that matches it.  [Walk] then calls the match predicates on the files
    before [e] and on [e] up to [t], prints the full path of [e], calls
    [Run t] on that path once and returns what it returns: the entries after
    [e], the tasks after [t] and the subdirectories play no part.  When no
    file of the directory matches, the first loop prints nothing and runs no
    task. *)
Theorem C4_one_task_per_directory
    (verdict : Task -> string -> bool) fuel path pre e post tpre t tpost w :
  stable verdict (tpre ++ t :: tpost) ->
  fst (ioutil_ReadDir path w) = inr (pre ++ e :: post) ->
  (forall x, In x pre -> IsDir x = false ->
     forall t', In t' (tpre ++ t :: tpost) -> verdict t' (Name x) = false) ->
  IsDir e = false ->
  (forall t', In t' tpre -> verdict t' (Name e) = false) ->
  verdict t (Name e) = true ->
  fires_only fuel path (tpre ++ t :: tpost) t (filepath_Join path (Name e))
    (fun w1 => tested (tpre ++ [t]) (Name e)
                 (tested_files (tpre ++ t :: tpost) pre w1)) w
  /\ (forall entries w1,
        (forall x, In x entries -> IsDir x = false ->
           forall t', In t' (tpre ++ t :: tpost) -> verdict t' (Name x) = false) ->
        first_loop path (tpre ++ t :: tpost) entries w1 =
          (None, tested_files (tpre ++ t :: tpost) entries w1)).
Proof.
  intros Hst Hrd Hpre He Hno Hyes. split.
  - eapply Walk_hit; eassumption.
  - intros entries w1 Hmiss. eapply first_loop_miss; eassumption.
Qed.

(** C10: in a directory whose first matching file is [e], matched by [t],
    the line with the full path of [e] is in the trace when [Run t] is
    called; [Walk] returns what [Run t] returns, an error included, and when
    [Run t] only adds to the trace, the line is still there afterwards,
    before everything [Run t] did. *)
Theorem C10_line_precedes_run
    (verdict : Task -> string -> bool) fuel path pre e post tpre t tpost w :
  stable verdict (tpre ++ t :: tpost) ->
  fst (ioutil_ReadDir path w) = inr (pre ++ e :: post) ->
  (forall x, In x pre -> IsDir x = false ->
     forall t', In t' (tpre ++ t :: tpost) -> verdict t' (Name x) = false) ->
  IsDir e = false ->
  (forall t', In t' tpre -> verdict t' (Name e) = false) ->
  verdict t (Name e) = true ->
  (forall p w0, exists d, extends w0 (snd (Run t p w0)) d) ->
  let tasks := tpre ++ t :: tpost in
  let file := filepath_Join path (Name e) in
  let w1 := tested (tpre ++ [t]) (Name e)
              (tested_files tasks pre (snd (ioutil_ReadDir path w))) in
  let w2 := snd (Fprintln_Stdout file w1) in
  trace w2 = trace w1 ++ [EvStdout file] /\
  fst (Walk (S fuel) path tasks w) = Returned (fst (Run t file w2)) /\
  exists d, extends w2 (snd (Run t file w2)) d /\
            trace (snd (Walk (S fuel) path tasks w))
              = trace w1 ++ EvStdout file :: d.
Proof.
  intros Hst Hrd Hpre He Hno Hyes Hadd tasks file w1 w2.
  pose proof (@Walk_hit verdict fuel path pre e post tpre t tpost w
                Hst Hrd Hpre He Hno Hyes) as HW.
  unfold fires_only in HW. fold tasks file in HW. cbv zeta in HW.
  fold w1 in HW. fold w2 in HW.
  split; [reflexivity|]. rewrite HW.
  destruct (Run t file w2) as [r w3] eqn:HR. split; [reflexivity|].
  destruct (Hadd file w2) as [d Hd]. rewrite HR in Hd. cbn [fst snd] in *.
  exists d. split; [exact Hd|].
  unfold extends in Hd. rewrite Hd. subst w2. cbn [snd Fprintln_Stdout emit trace].
  now rewrite <- app_assoc.
Qed.

(** ** What [Walk] preserves *)

Section Invariant.

Variable R : World -> World -> Prop.
Hypothesis R_refl : forall w, R w w.
Hypothesis R_trans : forall w1 w2 w3, R w1 w2 -> R w2 w3 -> R w1 w3.
Hypothesis R_read : forall p w, R w (snd (ioutil_ReadDir p w)).

Variable tasks : list Task.
Hypothesis R_miss : forall t, In t tasks -> forall name w,
  fst (Matches t name w) = false -> R w (snd (Matches t name w)).
Hypothesis R_hit : forall t, In t tasks -> forall path name w,
  fst (Matches t name w) = true ->
  R w (snd (Run t (filepath_Join path name)
         (snd (Fprintln_Stdout (filepath_Join path name)
            (snd (Matches t name w)))))).

Lemma try_tasks_preserves path e ts w :
  incl ts tasks -> R w (snd (try_tasks path e ts w)).
Proof.
  revert w. induction ts as [|t ts IH]; intros w Hin; simpl.
  - apply R_refl.
  - assert (Ht : In t tasks) by (apply Hin; now left).
    assert (Hts : incl ts tasks) by (intros x Hx; apply Hin; now right).
    rewrite bind_run. destruct (fst (Matches t (Name e) w)) eqn:Hm.
    + rewrite !bind_run. cbn [ret snd]. now apply R_hit.
    + eapply R_trans; [apply R_miss; eassumption|]. now apply IH.
Qed.

Lemma first_loop_preserves path entries w :
  R w (snd (first_loop path tasks entries w)).
Proof.
  revert w. induction entries as [|x xs IH]; intros w; simpl.
  - apply R_refl.
  - destruct (IsDir x); [apply IH|].
    rewrite bind_run.
    pose proof (try_tasks_preserves path x w (incl_refl tasks)) as Ht.
    destruct (try_tasks path x tasks w) as [[r|] w1]; cbn [fst snd] in *.
    + exact Ht.
    + eapply R_trans; [exact Ht|apply IH].
Qed.

Lemma second_loop_preserves walk path entries w :
  (forall p w0, R w0 (snd (walk p tasks w0))) ->
  R w (snd (second_loop walk path tasks entries w)).
Proof.
  intros Hwalk. revert w. induction entries as [|x xs IH]; intros w; simpl.
  - apply R_refl.
  - destruct (IsDir x); [|apply IH].
    rewrite bind_run.
    pose proof (Hwalk (filepath_Join path (Name x)) w) as Hw.
    destruct (walk (filepath_Join path (Name x)) tasks w) as [[|[err|]] w1];
      cbn [fst snd] in *; try exact Hw.
    eapply R_trans; [exact Hw|apply IH].
Qed.

Lemma Walk_preserves fuel path w : R w (snd (Walk fuel path tasks w)).
Proof.
  revert path w. induction fuel as [|n IH]; intros path w; cbn [Walk].
  - apply R_refl.
  - rewrite bind_run.
    pose proof (R_read path w) as Hr.
    destruct (ioutil_ReadDir path w) as [[err|entries] w1]; cbn [fst snd] in *.
    + exact Hr.
    + rewrite bind_run.
      pose proof (first_loop_preserves path entries w1) as Hf.
      destruct (first_loop path tasks entries w1) as [[r|] w2]; cbn [fst snd] in *.
      * eapply R_trans; eassumption.
      * eapply R_trans; [exact Hr|]. eapply R_trans; [exact Hf|].
        apply second_loop_preserves. intros p w0. apply IH.
Qed.

End Invariant.

(** ** The catalogue *)

Lemma apply_dry_runners dry : apply_dry dry runners = map (entry dry) tools.
Proof. destruct dry; reflexivity. Qed.

Lemma entry_available dry k : available (entry dry k) = LookPath (executable k).
Proof. destruct dry, k; reflexivity. Qed.

Lemma keep_available_entries dry ks acc w :
  keep_available acc (map (entry dry) ks) w =
    (acc ++ map (fun k => runner_Task (entry dry k))
                (filter (fun k => exec_LookPath (fs w) (executable k)) ks),
     mkWorld (fs w) (trace w ++ map (fun k => EvLookPath (executable k)) ks)).
Proof.
  revert acc w. induction ks as [|k ks IH]; intros acc w.
  - cbn. unfold ret. rewrite !app_nil_r. now destruct w.
  - cbn [map keep_available filter]. rewrite bind_run.
    cbn [runner_Task Available]. rewrite entry_available.
    cbn [LookPath fst snd]. rewrite IH. cbn [fs trace].
    rewrite <- app_assoc. cbn [app].
    destruct (exec_LookPath (fs w) (executable k)).
    + now rewrite <- app_assoc.
    + reflexivity.
Qed.

Lemma tasks_for_eq dry f :
  tasks_for dry f =
    map (fun k => runner_Task (entry dry k))
        (filter (fun k => exec_LookPath f (executable k)) tools).
Proof.
  unfold tasks_for. now rewrite apply_dry_runners, keep_available_entries.
Qed.

Lemma keep_available_catalogue dry w :
  keep_available [] (apply_dry dry runners) w =
    (tasks_for dry (fs w), mkWorld (fs w) (trace w ++ lookups)).
Proof.
  rewrite tasks_for_eq, apply_dry_runners. now rewrite keep_available_entries.
Qed.

Lemma tasks_for_catalogue dry f : catalogue_tasks dry (tasks_for dry f).
Proof.
  intros t Ht. rewrite tasks_for_eq in Ht. apply in_map_iff in Ht.
  destruct Ht as [k [Hk _]]. now exists k.
Qed.

Lemma entry_Matches dry k name w :
  Matches (runner_Task (entry dry k)) name w = (manifest k name, w).
Proof. destruct dry, k; reflexivity. Qed.

Lemma entry_Run_dry k : Run (runner_Task (entry true k)) = dry_run.
Proof. destruct k; reflexivity. Qed.

(** What the two removing tasks return, from what [os.RemoveAll] returns:
    an error exactly when the removal failed with "does not exist". *)
Lemma removal_result (k : tool) (sub path : string) w :
  (k = Composer /\ sub = "vendor") \/ (k = Npm /\ sub = "node_modules") ->
  let dir := filepath_Join (filepath_Dir path) sub in
  fst (run (runner_of k) path w) =
    match fst (RemoveAll dir w) with
    | Some e => if os_IsNotExist e
                then Some (Errorf "failed to remove path %s: %w" dir e)
                else None
    | None => None
    end.
Proof.
  intros [[-> ->]|[-> ->]] dir; cbn [runner_of run runner_composer runner_npm];
    rewrite bind_run; fold dir;
    destruct (fst (RemoveAll dir w)) as [e|]; try reflexivity;
    destruct (os_IsNotExist e); reflexivity.
Qed.

(** ** main, step by step *)

Lemma main_eq fuel dry args w :
  main fuel dry args w =
    match filepath_Abs (fs w) (root_path args) with
    | inl err =>
        (Returned errorParseExitCode,
         mkWorld (fs w)
           (trace w ++ [EvStderr "failed to parse given path %s: %v\n"
                          [AStr (root_path args); AErr err]]))
    | inr absPath =>
        let w1 := mkWorld (fs w) (trace w ++ lookups) in
        if (length (tasks_for dry (fs w)) =? 0)%nat then
          (Returned errorParseExitCode,
           mkWorld (fs w)
             (trace w1 ++
              [EvStderr
                 "no valid package managers found (tried cargo, composer, npm)\n"
                 []]))
        else
          match Walk fuel absPath (tasks_for dry (fs w)) w1 with
          | (OutOfFuel, w2) => (OutOfFuel, w2)
          | (Returned (Some err), w2) =>
              (Returned errorExitCode,
               mkWorld (fs w2)
                 (trace w2 ++ [EvStderr "purging failed with an error: %v\n"
                                 [AErr err]]))
          | (Returned None, w2) =>
              (Returned (fst (clear_caches dry w2)), snd (clear_caches dry w2))
          end
    end.
Proof.
  unfold main. destruct (filepath_Abs (fs w) (root_path args)) as [err|absPath].
  - reflexivity.
  - rewrite bind_run, keep_available_catalogue. cbn [fst snd].
    destruct (length (tasks_for dry (fs w)) =? 0)%nat; [reflexivity|].
    rewrite bind_run.
    destruct (Walk fuel absPath (tasks_for dry (fs w)) _) as [[|[err|]] w2];
      cbn [fst snd]; try reflexivity.
    now rewrite bind_run.
Qed.

(** ** Dry runs leave the file system alone *)

Lemma quiet_refl w : quiet w w.
Proof.
  split; [reflexivity|]. exists []. split; [|reflexivity].
  unfold extends. now rewrite app_nil_r.
Qed.

Lemma quiet_trans w1 w2 w3 : quiet w1 w2 -> quiet w2 w3 -> quiet w1 w3.
Proof.
  intros [Hf1 [d1 [He1 Hd1]]] [Hf2 [d2 [He2 Hd2]]]. split; [congruence|].
  exists (d1 ++ d2). split.
  - unfold extends in *. now rewrite He2, He1, app_assoc.
  - rewrite forallb_app, Hd1, Hd2. reflexivity.
Qed.

Lemma quiet_emit e w :
  mutation e = false -> quiet w (mkWorld (fs w) (trace w ++ [e])).
Proof.
  intros He. split; [reflexivity|]. exists [e]. split; [reflexivity|].
  cbn. now rewrite He.
Qed.

Lemma quiet_read p w : quiet w (snd (ioutil_ReadDir p w)).
Proof.
  unfold ioutil_ReadDir. destruct (os_Readdir (fs w) p); now apply quiet_emit.
Qed.

Lemma quiet_Walk_dry fuel path tasks w :
  catalogue_tasks true tasks -> quiet w (snd (Walk fuel path tasks w)).
Proof.
  intros Hc. apply Walk_preserves.
  - apply quiet_refl.
  - apply quiet_trans.
  - apply quiet_read.
  - intros t Ht name w0 _. destruct (Hc t Ht) as [k ->].
    rewrite entry_Matches. apply quiet_refl.
  - intros t Ht p name w0 _. destruct (Hc t Ht) as [k ->].
    rewrite entry_Matches, entry_Run_dry. cbn [snd].
    eapply quiet_trans; now apply quiet_emit.
Qed.

(** C7: under [-dry] every registered [run] is the print-only function, and
    whatever the arguments, the file system and the fuel, from the start of
    [main] to its end (or to the point the fuel runs out) the file system is
    unchanged, no removal is issued and no child process is run: neither a
    clean command of a task nor a cache-clearing command. *)
Theorem C7_dry_run_mutates_nothing fuel args w :
  Forall (fun r => run r = dry_run) (apply_dry true runners) /\
  (forall t, In t (tasks_for true (fs w)) -> Run t = dry_run) /\
  clear_caches true = ret successExitCode /\
  quiet w (snd (main fuel true args w)).
Proof.
  split; [repeat constructor|]. split.
  { intros t Ht. destruct (@tasks_for_catalogue true (fs w) t Ht) as [k ->].
    apply entry_Run_dry. }
  split; [reflexivity|].
  rewrite main_eq.
  destruct (filepath_Abs (fs w) (root_path args)) as [err|absPath]; cbn [snd].
  - now apply quiet_emit.
  - assert (Hl : quiet w (mkWorld (fs w) (trace w ++ lookups))).
    { split; [reflexivity|]. exists lookups. split; reflexivity. }
    cbv zeta.
    destruct (length (tasks_for true (fs w)) =? 0)%nat; cbn [snd].
    + eapply quiet_trans; [exact Hl|].
      now apply (@quiet_emit (EvStderr _ _) (mkWorld (fs w) (trace w ++ lookups))).
    + pose proof (quiet_Walk_dry fuel absPath
                    (mkWorld (fs w) (trace w ++ lookups))
                    (@tasks_for_catalogue true (fs w))) as HW.
      destruct (Walk fuel absPath _ _) as [[|[err|]] w2]; cbn [fst snd] in *.
      * eapply quiet_trans; eassumption.
      * eapply quiet_trans; [exact Hl|]. eapply quiet_trans; [exact HW|].
        now apply quiet_emit.
      * eapply quiet_trans; eassumption.
Qed.

(** ** What a traversal writes *)

Lemma stdout_lines_app d1 d2 :
  stdout_lines (d1 ++ d2) = stdout_lines d1 ++ stdout_lines d2.
Proof.
  induction d1 as [|e d1 IH]; [reflexivity|].
  destruct e; cbn; now rewrite ?IH.
Qed.

Lemma stdout_lines_observable d :
  stdout_lines (filter observable d) = stdout_lines d.
Proof.
  induction d as [|e d IH]; [reflexivity|].
  destruct e; cbn; now rewrite ?IH.
Qed.

Lemma stdout_lines_blocks dry ms :
  stdout_lines (flat_map (block dry) ms) = flat_map (lines dry) ms.
Proof.
  induction ms as [|[k p] ms IH]; [reflexivity|].
  cbn [flat_map]. rewrite stdout_lines_app, IH. f_equal.
  destruct dry; [reflexivity|]. destruct k; reflexivity.
Qed.

Lemma steps_refl dry w : steps dry w w [].
Proof.
  exists []. unfold extends. rewrite app_nil_r. repeat split. constructor.
Qed.

Lemma steps_trans dry w1 w2 w3 ms1 ms2 :
  steps dry w1 w2 ms1 -> steps dry w2 w3 ms2 -> steps dry w1 w3 (ms1 ++ ms2).
Proof.
  intros [d1 [He1 [Hd1 Hg1]]] [d2 [He2 [Hd2 Hg2]]]. exists (d1 ++ d2).
  repeat split.
  - unfold extends in *. now rewrite He2, He1, app_assoc.
  - now rewrite filter_app, flat_map_app, Hd1, Hd2.
  - apply Forall_app. now split.
Qed.

Lemma steps_read dry p w : steps dry w (snd (ioutil_ReadDir p w)) [].
Proof.
  exists [EvReadDir p]. repeat split.
  - unfold ioutil_ReadDir. now destruct (os_Readdir (fs w) p).
  - constructor.
Qed.

(** The action of a row, as its calls in the trace. *)
Lemma entry_Run_trace dry k p w :
  exists d, extends w (snd (Run (runner_Task (entry dry k)) p w)) d /\
            filter observable d = [action dry k p].
Proof.
  unfold extends. destruct dry.
  - rewrite entry_Run_dry. exists [EvStdout p]. split; reflexivity.
  - destruct k; cbn [entry runner_of runner_Task Run run runner_composer
                       runner_npm runner_cargo runner_dotnet];
      rewrite bind_run.
    + unfold RemoveAll.
      destruct (os_RemoveAll _ (fs w)) as [[e|] f1]; cbn [fst snd];
        try destruct (os_IsNotExist e);
        (eexists; split; [reflexivity|reflexivity]).
    + unfold RemoveAll.
      destruct (os_RemoveAll _ (fs w)) as [[e|] f1]; cbn [fst snd];
        try destruct (os_IsNotExist e);
        (eexists; split; [reflexivity|reflexivity]).
    + unfold cmd_Run.
      destruct (exec_Run _ (fs w)) as [[[e|] out] f1]; cbn [fst snd];
        (eexists; split; [reflexivity|reflexivity]).
    + unfold cmd_CombinedOutput.
      destruct (exec_Run _ (fs w)) as [[[e|] out] f1]; cbn [fst snd].
      * rewrite bind_run. cbn. rewrite <- app_assoc.
        eexists; split; [reflexivity|reflexivity].
      * eexists; split; [reflexivity|reflexivity].
Qed.

Lemma steps_Walk dry fuel path tasks w :
  catalogue_tasks dry tasks ->
  exists ms, steps dry w (snd (Walk fuel path tasks w)) ms.
Proof.
  intros Hc.
  apply (@Walk_preserves (fun w1 w2 => exists ms, steps dry w1 w2 ms)).
  - intros w0. exists []. apply steps_refl.
  - intros w1 w2 w3 [ms1 H1] [ms2 H2]. exists (ms1 ++ ms2).
    eapply steps_trans; eassumption.
  - intros p w0. exists []. apply steps_read.
  - intros t Ht name w0 _. destruct (Hc t Ht) as [k ->].
    rewrite entry_Matches. exists []. apply steps_refl.
  - intros t Ht p name w0 Hm. destruct (Hc t Ht) as [k ->].
    rewrite entry_Matches in *. cbn [fst snd] in *.
    set (file := filepath_Join p name).
    destruct (entry_Run_trace dry k file (snd (Fprintln_Stdout file w0)))
      as [d [He Hd]].
    exists [(k, file)]. exists (EvStdout file :: d). repeat split.
    + unfold extends in *. rewrite He. cbn. now rewrite <- app_assoc.
    + cbn. now rewrite Hd.
    + constructor; [|constructor]. now exists p, name.
Qed.

(** ** The cache-clearing phase *)

Lemma clear_caches_spec w : clear_caches false w = clear_all cache_commands w.
Proof.
  unfold clear_caches, clearCachesGo, clearCachesComposer, clearCachesNpm,
    run_or_wrap, cache_commands. cbn [negb clear_all].
  unfold bind, cmd_Run, ret, Fprintf_Stderr, emit.
  repeat (match goal with
          | |- context [exec_Run ?c ?f] =>
              destruct (exec_Run c f) as [[[?|] ?] ?]
          end; cbv beta iota; cbn [fs trace]); reflexivity.
Qed.

(** The trace of [clear_all]: the commands up to the first failing one,
    followed by its diagnostic. *)
Lemma clear_all_trace cs w :
  (fst (clear_all cs w) = 0 /\
   trace (snd (clear_all cs w)) = trace w ++ map (fun c => EvExec (snd c)) cs)
  \/
  (fst (clear_all cs w) = 1 /\
   exists ran diagnostic c rest e,
     cs = ran ++ (diagnostic, c) :: rest /\
     trace (snd (clear_all cs w)) =
       trace w ++ map (fun c => EvExec (snd c)) (ran ++ [(diagnostic, c)])
         ++ [EvStderr diagnostic
               [AErr (Errorf "failed to run command %q: %w" (Cmd_String c) e)]]).
Proof.
  revert w. induction cs as [|[diagnostic c] cs IH]; intros w.
  - left. cbn. now rewrite app_nil_r.
  - cbn [clear_all]. rewrite bind_run. unfold cmd_Run.
    destruct (exec_Run c (fs w)) as [[[e|] out] f1]; cbn [fst snd].
    + right. split; [reflexivity|].
      exists [], diagnostic, c, cs, e. split; [reflexivity|].
      cbn. now rewrite <- app_assoc.
    + destruct (IH (mkWorld f1 (trace w ++ [EvExec c])))
        as [[H0 Ht]|[H1 [ran [dg [c' [rest [e [Hcs Ht]]]]]]]].
      * left. split; [exact H0|]. rewrite Ht. cbn. now rewrite <- app_assoc.
      * right. split; [exact H1|].
        exists ((diagnostic, c) :: ran), dg, c', rest, e. split.
        -- now rewrite Hcs.
        -- rewrite Ht. cbn. now rewrite <- app_assoc.
Qed.

Lemma clear_all_silent cs w :
  exists d, extends w (snd (clear_all cs w)) d /\ stdout_lines d = [].
Proof.
  assert (Hm : forall l : list (string * Cmd),
             stdout_lines (map (fun c => EvExec (snd c)) l) = []).
  { induction l; cbn; auto. }
  destruct (clear_all_trace cs w)
    as [[_ Ht]|[_ [ran [dg [c [rest [e [_ Ht]]]]]]]]; eexists; (split; [exact Ht|]).
  - apply Hm.
  - now rewrite stdout_lines_app, Hm.
Qed.

(** C8: when, without [-dry], the traversal has returned without error, what
    is left of [main] is [clear_all cache_commands]: go build cache, go
    module cache, go test cache, composer cache, npm cache, whatever tools
    are installed and whatever the traversal found.  The trace shows the
    commands up to the first failing one; on a failure the diagnostic names
    the command, the exit code is 1 and the commands after it are not run;
    otherwise all five are run and the exit code is 0. *)
Theorem C8_cache_clearing_fail_fast fuel args w absPath w2 :
  filepath_Abs (fs w) (root_path args) = inr absPath ->
  tasks_for false (fs w) <> [] ->
  Walk fuel absPath (tasks_for false (fs w)) (mkWorld (fs w) (trace w ++ lookups))
    = (Returned None, w2) ->
  let code := fst (clear_all cache_commands w2) in
  let w3 := snd (clear_all cache_commands w2) in
  main fuel false args w = (Returned code, w3) /\
  ((code = successExitCode /\
    trace w3 = trace w2 ++ map (fun c => EvExec (snd c)) cache_commands)
   \/
   (code = errorExitCode /\
    exists ran diagnostic c rest e,
      cache_commands = ran ++ (diagnostic, c) :: rest /\
      trace w3 =
        trace w2 ++ map (fun c => EvExec (snd c)) (ran ++ [(diagnostic, c)])
          ++ [EvStderr diagnostic
                [AErr (Errorf "failed to run command %q: %w"
                         (Cmd_String c) e)]])).
Proof.
  intros Habs Hne HW code w3. split.
  - rewrite main_eq, Habs. cbv zeta.
    destruct (tasks_for false (fs w)) as [|t ts] eqn:Ht; [congruence|].
    cbn [length Nat.eqb]. rewrite HW, clear_caches_spec. reflexivity.
  - apply clear_all_trace.
Qed.

(** ** Standard output of a whole run *)

Lemma clear_caches_silent dry w :
  exists d, extends w (snd (clear_caches dry w)) d /\ stdout_lines d = [].
Proof.
  destruct dry.
  - exists []. split; [|reflexivity]. unfold extends. cbn. now rewrite app_nil_r.
  - rewrite clear_caches_spec. apply clear_all_silent.
Qed.

Lemma run_shape dry w w1 w2 w' pre post ms :
  extends w w1 pre -> steps dry w1 w2 ms -> extends w2 w' post ->
  stdout_lines pre = [] -> stdout_lines post = [] ->
  exists ms,
    matches_of_run dry w w' ms /\
    stdout_lines (trace w') = stdout_lines (trace w) ++ flat_map (lines dry) ms.
Proof.
  intros Hpre [wd [Hwd [Hobs Hgen]]] Hpost Hs1 Hs2.
  unfold extends in *.
  assert (Ht : trace w' = trace w ++ pre ++ wd ++ post).
  { rewrite Hpost, Hwd, Hpre. now rewrite <- !app_assoc. }
  exists ms. split; [exists pre, wd, post; repeat split; auto|].
  rewrite Ht, !stdout_lines_app, Hs1, Hs2, app_nil_r. cbn [app].
  now rewrite <- (stdout_lines_observable wd), Hobs, stdout_lines_blocks.
Qed.

(** The standard output of a whole run: it is written to only while
    [Walk] handles a match; the lines of a match are those of [lines], and
    nothing is written before or after the traversal. *)
Lemma stdout_of_run fuel dry args w :
  let w' := snd (main fuel dry args w) in
  exists ms,
    matches_of_run dry w w' ms /\
    stdout_lines (trace w') = stdout_lines (trace w) ++ flat_map (lines dry) ms.
Proof.
  cbv zeta. rewrite main_eq.
  destruct (filepath_Abs (fs w) (root_path args)) as [err|absPath]; cbn [snd].
  - eapply (@run_shape dry w w w _ [] _ []).
    + unfold extends. now rewrite app_nil_r.
    + apply steps_refl.
    + reflexivity.
    + reflexivity.
    + reflexivity.
  - cbv zeta. set (w1 := mkWorld (fs w) (trace w ++ lookups)).
    assert (Hl : extends w w1 lookups) by reflexivity.
    destruct (length (tasks_for dry (fs w)) =? 0)%nat; cbn [snd].
    + eapply (@run_shape dry w w1 w1 _ lookups _ []).
      * exact Hl.
      * apply steps_refl.
      * reflexivity.
      * reflexivity.
      * reflexivity.
    + destruct (@steps_Walk dry fuel absPath (tasks_for dry (fs w)) w1
                  (@tasks_for_catalogue dry (fs w))) as [ms HW].
      destruct (Walk fuel absPath (tasks_for dry (fs w)) w1)
        as [[|[err|]] w2]; cbn [fst snd] in *.
      * eapply (@run_shape dry w w1 w2 w2 lookups [] ms); auto.
        unfold extends. now rewrite app_nil_r.
      * eapply (@run_shape dry w w1 w2 _ lookups _ ms); auto.
        -- reflexivity.
        -- reflexivity.
      * destruct (clear_caches_silent dry w2) as [d [Hd Hs]].
        eapply (@run_shape dry w w1 w2 _ lookups d ms); auto.
Qed.

(** C9: when the path resolves and none of the four tools is found, [main]
    looks the four tools up, writes the diagnostic to standard error and
    exits with code 2; this holds for every fuel, zero included, and the
    trace has no directory listing: [Walk] is not called. *)
Theorem C9_no_tool_no_traversal fuel dry args w absPath :
  filepath_Abs (fs w) (root_path args) = inr absPath ->
  (forall k, exec_LookPath (fs w) (executable k) = false) ->
  tasks_for dry (fs w) = [] /\
  main fuel dry args w =
    (Returned errorParseExitCode,
     mkWorld (fs w)
       (trace w ++ lookups ++
        [EvStderr "no valid package managers found (tried cargo, composer, npm)\n"
           []])).
Proof.
  intros Habs Hno.
  assert (Ht : tasks_for dry (fs w) = []).
  { rewrite tasks_for_eq. unfold tools. cbn [filter].
    now rewrite !Hno. }
  split; [exact Ht|].
  rewrite main_eq, Habs, Ht. cbn [length Nat.eqb trace].
  now rewrite <- app_assoc.
Qed.

(** C6: when the child process of the dotnet task ends with an error, the
    task writes the command, the error and the captured output to standard
    error and returns nil.  Whatever the process does, the task returns nil,
    so [Walk] on a directory in which the dotnet task fires returns nil, and
    the loop of the parent directory, which stops on errors only, goes on
    with the remaining subdirectories. *)
Theorem C6_dotnet_failure_is_tolerated path w e out f1 :
  let cmd := mkCmd (appName "dotnet") ["clean"; "--nologo"] (filepath_Dir path) in
  exec_Run cmd (fs w) = ((Some e, out), f1) ->
  run runner_dotnet path w =
    (None,
     mkWorld f1
       (trace w ++
        [EvExec cmd;
         EvStderr "failed to run command %q: %v\n%s\n"
           [AStr (Cmd_String cmd); AErr e; AStr out]])) /\
  (forall p w0, fst (run runner_dotnet p w0) = None) /\
  (forall fuel dir tasks file before w0,
     fires_only fuel dir tasks (runner_Task runner_dotnet) file before w0 ->
     fst (Walk (S fuel) dir tasks w0) = Returned None) /\
  (forall walk parent tasks d rest w0,
     IsDir d = true ->
     fst (walk (filepath_Join parent (Name d)) tasks w0) = Returned None ->
     second_loop walk parent tasks (d :: rest) w0 =
       second_loop walk parent tasks rest
         (snd (walk (filepath_Join parent (Name d)) tasks w0))).
Proof.
  intros cmd Hex.
  assert (Hnil : forall p w0, fst (run runner_dotnet p w0) = None).
  { intros p w0. cbn [run runner_dotnet]. rewrite bind_run.
    unfold cmd_CombinedOutput.
    destruct (exec_Run _ (fs w0)) as [[[e0|] o0] f0]; reflexivity. }
  split; [|split; [exact Hnil|split]].
  - cbn [run runner_dotnet]. rewrite bind_run. unfold cmd_CombinedOutput.
    fold cmd. rewrite Hex. cbn. now rewrite <- app_assoc.
  - intros fuel dir tasks file before w0 Hf. unfold fires_only in Hf.
    rewrite Hf. cbv zeta. cbn [Run runner_Task].
    pose proof (Hnil file (snd (Fprintln_Stdout file
                                  (before (snd (ioutil_ReadDir dir w0)))))) as Hn.
    destruct (run runner_dotnet file _) as [r w3]. cbn [fst] in *. now subst r.
  - intros walk parent tasks d rest w0 Hd Hw.
    cbn [second_loop]. rewrite Hd, bind_run, Hw. reflexivity.
Qed.

(** ** Entries that are neither files nor directories *)

Lemma as_plain_file_IsDir e : IsDir (as_plain_file e) = IsDir e.
Proof. destruct e as [n []]; reflexivity. Qed.

Lemma as_plain_file_Name e : Name (as_plain_file e) = Name e.
Proof. destruct e as [n []]; reflexivity. Qed.

Lemma try_tasks_Name path e e' tasks w :
  Name e = Name e' -> try_tasks path e tasks w = try_tasks path e' tasks w.
Proof.
  intros Hn. revert w. induction tasks as [|t ts IH]; intros w; cbn [try_tasks].
  - reflexivity.
  - rewrite !bind_run, Hn. destruct (fst (Matches t (Name e') w)); [reflexivity|].
    apply IH.
Qed.

Lemma first_loop_plain path tasks entries w :
  first_loop path tasks entries w =
    first_loop path tasks (map as_plain_file entries) w.
Proof.
  revert w. induction entries as [|x xs IH]; intros w; [reflexivity|].
  cbn [map first_loop]. rewrite as_plain_file_IsDir.
  destruct (IsDir x); [apply IH|].
  rewrite !bind_run,
    (@try_tasks_Name path (as_plain_file x) x tasks w (as_plain_file_Name x)).
  destruct (fst (try_tasks path x tasks w)); [reflexivity|apply IH].
Qed.

Lemma second_loop_regular walk path tasks entries w :
  second_loop walk path tasks entries w =
    second_loop walk path tasks (filter (fun e => negb (irregular e)) entries) w.
Proof.
  revert w. induction entries as [|x xs IH]; intros w; [reflexivity|].
  cbn [filter]. destruct (irregular x) eqn:Hi; cbn [negb].
  - cbn [second_loop].
    replace (IsDir x) with false by (destruct x as [n []]; easy).
    apply IH.
  - cbn [second_loop]. destruct (IsDir x); [|apply IH].
    rewrite !bind_run.
    destruct (fst (walk _ tasks w)) as [|[err|]]; try reflexivity. apply IH.
Qed.

(** C3, as the program has it: the loop over directories skips the entries
    that are neither plain files nor directories (deleting them from the
    listing changes nothing, whatever the recursive call does), but the loop
    over files handles such an entry exactly as the plain file of the same
    name: its name is tested against the tasks and can match.  So [Walk] on
    a directory is the loop over files on the listing with these entries
    turned into plain files, followed by the loop over directories on the
    listing without them. *)
Theorem C3_irregular_entries fuel walk path tasks entries w :
  second_loop walk path tasks entries w =
    second_loop walk path tasks (filter (fun e => negb (irregular e)) entries) w
  /\
  first_loop path tasks entries w =
    first_loop path tasks (map as_plain_file entries) w
  /\
  Walk (S fuel) path tasks w =
    (r <- ioutil_ReadDir path ;;
     match r with
     | inl err =>
         ret (Returned (Some
           (Errorf "failed to read file entries of directory %q: %w" path err)))
     | inr listing =>
         m <- first_loop path tasks (map as_plain_file listing) ;;
         match m with
         | Some r => ret (Returned r)
         | None =>
             second_loop (Walk fuel) path tasks
               (filter (fun e => negb (irregular e)) listing)
         end
     end) w.
Proof.
  split; [apply second_loop_regular|]. split; [apply first_loop_plain|].
  cbn [Walk]. rewrite !bind_run.
  destruct (fst (ioutil_ReadDir path w)) as [err|listing]; [reflexivity|].
  rewrite !bind_run, <- first_loop_plain.
  destruct (fst (first_loop path tasks listing _)); [reflexivity|].
  apply second_loop_regular.
Qed.

(** ** The order of a listing *)

Lemma ascii_compare_lt_trans a b c :
  Ascii.compare a b = Lt -> Ascii.compare b c = Lt -> Ascii.compare a c = Lt.
Proof.
  unfold Ascii.compare. rewrite !N.compare_lt_iff. apply N.lt_trans.
Qed.

Lemma string_compare_le_trans s1 :
  forall s2 s3, String.compare s1 s2 <> Gt -> String.compare s2 s3 <> Gt ->
                String.compare s1 s3 <> Gt.
Proof.
  induction s1 as [|a s1 IH]; intros [|b s2] [|c s3] H12 H23; cbn in *;
    try congruence.
  destruct (Ascii.compare a b) eqn:Hab; try congruence.
  - apply Ascii.compare_eq_iff in Hab. subst b.
    destruct (Ascii.compare a c); try congruence. eapply IH; eassumption.
  - destruct (Ascii.compare b c) eqn:Hbc; try congruence.
    + apply Ascii.compare_eq_iff in Hbc. subst c. rewrite Hab. congruence.
    + rewrite (ascii_compare_lt_trans _ _ _ Hab Hbc). congruence.
Qed.

Lemma leb_trans s1 s2 s3 :
  (s1 <=? s2) = true -> (s2 <=? s3) = true -> (s1 <=? s3) = true.
Proof.
  unfold String.leb. intros H12 H23.
  assert (H : String.compare s1 s3 <> Gt).
  { apply string_compare_le_trans with s2.
    - destruct (String.compare s1 s2); congruence.
    - destruct (String.compare s2 s3); congruence. }
  destruct (String.compare s1 s3); congruence.
Qed.

Lemma leb_neq_ltb s1 s2 :
  (s1 <=? s2) = true -> s1 <> s2 -> (s1 <? s2) = true.
Proof.
  unfold String.leb, String.ltb. intros Hle Hne.
  destruct (String.compare s1 s2) eqn:Hc; try congruence.
  apply String.compare_eq_iff in Hc. contradiction.
Qed.

Lemma insert_by_name_In x y l : In y (insert_by_name x l) <-> y = x \/ In y l.
Proof.
  induction l as [|z l IH]; cbn.
  - intuition.
  - destruct (Name x <=? Name z); cbn; rewrite ?IH; intuition.
Qed.

Lemma sort_by_name_In y l : In y (sort_by_name l) <-> In y l.
Proof.
  induction l as [|x l IH]; cbn; [tauto|].
  rewrite insert_by_name_In, IH. intuition.
Qed.

Lemma insert_by_name_sorted x l :
  StronglySorted name_le l -> StronglySorted name_le (insert_by_name x l).
Proof.
  induction 1 as [|z l Hs IH Hz]; cbn.
  - repeat constructor.
  - destruct (Name x <=? Name z) eqn:Hxz.
    + constructor; [now constructor|]. constructor; [exact Hxz|].
      rewrite Forall_forall in *. intros y Hy.
      unfold name_le. eapply leb_trans; [exact Hxz|]. now apply Hz.
    + constructor; [exact IH|]. rewrite Forall_forall in *.
      intros y Hy. apply insert_by_name_In in Hy. destruct Hy as [->|Hy].
      * destruct (String.leb_total (Name x) (Name z)); [congruence|assumption].
      * now apply Hz.
Qed.

Lemma sort_by_name_sorted l : StronglySorted name_le (sort_by_name l).
Proof.
  induction l; cbn; [constructor|now apply insert_by_name_sorted].
Qed.

(** ** composer.json and package.json side by side *)

Lemma try_tasks_entries_miss dry path x ks w :
  (forall k, In k ks -> manifest k (Name x) = false) ->
  try_tasks path x (map (fun k => runner_Task (entry dry k)) ks) w = (None, w).
Proof.
  induction ks as [|k ks IH]; intros Hno; cbn [map try_tasks].
  - reflexivity.
  - rewrite bind_run, entry_Matches. cbn [fst snd].
    rewrite (Hno k (or_introl eq_refl)). apply IH.
    intros k' Hk'. apply Hno. now right.
Qed.

Lemma first_loop_composer dry path ks l w :
  StronglySorted name_le l ->
  (exists c, In c l /\ Name c = "composer.json" /\ IsDir c = false) ->
  (forall x, In x l -> IsDir x = false -> (Name x <? "composer.json") = true ->
     forall k, In k (Composer :: ks) -> manifest k (Name x) = false) ->
  first_loop path (map (fun k => runner_Task (entry dry k)) (Composer :: ks)) l w =
    let file := filepath_Join path "composer.json" in
    let w2 := snd (Fprintln_Stdout file w) in
    (Some (fst (Run (runner_Task (entry dry Composer)) file w2)),
     snd (Run (runner_Task (entry dry Composer)) file w2)).
Proof.
  induction 1 as [|x l Hs IH Hx]; intros [c [Hc [Hn Hd]]] Hlow.
  - destruct Hc.
  - cbn [first_loop].
    assert (Htail : x <> c -> In c l) by (destruct Hc; congruence).
    assert (Hlow' : forall y, In y l -> IsDir y = false ->
              (Name y <? "composer.json") = true ->
              forall k, In k (Composer :: ks) -> manifest k (Name y) = false).
    { intros y Hy. apply Hlow. now right. }
    destruct (IsDir x) eqn:Hdx.
    + apply IH; auto. exists c. repeat split; auto.
      apply Htail. intros ->. congruence.
    + rewrite bind_run. destruct (Name x =? "composer.json") eqn:Hnx.
      * apply String.eqb_eq in Hnx.
        cbn [map try_tasks]. rewrite bind_run, entry_Matches. cbn [fst snd].
        cbn [manifest]. rewrite Hnx, String.eqb_refl, !bind_run.
        reflexivity.
      * apply String.eqb_neq in Hnx.
        assert (Hin : In c l) by (apply Htail; intros ->; congruence).
        assert (Hlt : (Name x <? "composer.json") = true).
        { apply leb_neq_ltb; [|exact Hnx]. rewrite <- Hn.
          rewrite Forall_forall in Hx. now apply Hx. }
        rewrite try_tasks_entries_miss.
        -- cbn [fst snd]. apply IH; auto. exists c. auto.
        -- intros k Hk. apply Hlow; auto. now left.
Qed.

Lemma available_tools f :
  exec_LookPath f "composer" = true ->
  exists ks, filter (fun k => exec_LookPath f (executable k)) tools
             = Composer :: ks.
Proof.
  intros Hc. unfold tools. cbn [filter executable]. rewrite Hc. eauto.
Qed.

(** C5, as the program has it: in a directory that holds the files
    [composer.json] and [package.json], with composer and npm installed, the
    composer task fires on [composer.json] and nothing else happens in the
    directory, provided no file whose name sorts before [composer.json] is a
    manifest of an installed tool (the entries are tried in the order of
    their names, before the order of the catalogue comes into play). *)
Theorem C5_composer_before_npm dry f fuel path w raw c p :
  exec_LookPath f "composer" = true ->
  exec_LookPath f "npm" = true ->
  os_Readdir (fs w) path = inr raw ->
  In c raw -> Name c = "composer.json" -> IsDir c = false ->
  In p raw -> Name p = "package.json" -> IsDir p = false ->
  (forall x k, In x raw -> IsDir x = false ->
     (Name x <? "composer.json") = true ->
     exec_LookPath f (executable k) = true -> manifest k (Name x) = false) ->
  composer_fires dry fuel path (tasks_for dry f) w.
Proof.
  intros Hcomposer Hnpm Hraw Hc Hcn Hcd Hp Hpn Hpd Hlow.
  unfold composer_fires, fires_only. cbn [Walk].
  rewrite bind_run. unfold ioutil_ReadDir at 1 2. rewrite Hraw. cbn [fst snd].
  rewrite bind_run, tasks_for_eq.
  destruct (available_tools f Hcomposer) as [ks Hks].
  assert (Hav : forall k, In k (Composer :: ks) ->
            exec_LookPath f (executable k) = true).
  { intros k Hk. rewrite <- Hks in Hk. now apply filter_In in Hk. }
  rewrite Hks, first_loop_composer.
  - cbn [fst snd]. unfold ioutil_ReadDir. rewrite Hraw. cbn [snd]. unfold ret.
    now destruct (Run _ _ _).
  - apply sort_by_name_sorted.
  - exists c. rewrite sort_by_name_In. auto.
  - intros x Hx Hdx Hlt k Hk. rewrite sort_by_name_In in Hx.
    apply (Hlow x k); auto.
Qed.

(** * Further properties of the program *)

(** ** The match predicates of the catalogue *)

Lemma manifest_unique k k' s :
  manifest k s = true -> manifest k' s = true -> k = k'.
Proof.
  assert (Hd : forall n, n = "composer.json" \/ n = "package.json" \/
                         n = "Cargo.toml" \/ n = "cargo.toml" ->
                         manifest Dotnet n = false).
  { intros n [->|[->|[->| ->]]]; reflexivity. }
  assert (Hn : forall k0, k0 <> Dotnet -> manifest k0 s = true ->
                 s = "composer.json" \/ s = "package.json" \/
                 s = "Cargo.toml" \/ s = "cargo.toml").
  { intros [] Hk H; cbn in H; try congruence;
      rewrite ?orb_true_iff, ?String.eqb_eq in H; intuition. }
  destruct k, k'; try reflexivity; intros H1 H2;
    try (rewrite (Hd s) in H1 by (apply Hn with (2 := H2); discriminate);
         discriminate H1);
    try (rewrite (Hd s) in H2 by (apply Hn with (2 := H1); discriminate);
         discriminate H2);
    cbn in H1, H2;
    rewrite ?orb_true_iff, ?String.eqb_eq in H1;
    rewrite ?orb_true_iff, ?String.eqb_eq in H2;
    intuition congruence.
Qed.

(** X1: no file name is the manifest of two rows of the catalogue: for one
    file, the order of the catalogue never decides between two tasks. *)
Theorem X1_manifests_disjoint k k' s :
  manifest k s = true -> manifest k' s = true -> k = k'.
Proof. apply manifest_unique. Qed.

Lemma length_append s1 s2 :
  String.length (s1 ++ s2) = String.length s1 + String.length s2.
Proof. induction s1 as [|c s1 IH]; cbn; [reflexivity|now rewrite IH]. Qed.

Lemma substring_full s : substring 0 (String.length s) s = s.
Proof. induction s as [|c s IH]; cbn; [reflexivity|now rewrite IH]. Qed.

Lemma substring_skip p s :
  substring (String.length p) (String.length s) (p ++ s) = s.
Proof. induction p as [|c p IH]; cbn; [apply substring_full|exact IH]. Qed.

Lemma substring_split n : forall s,
  n <= String.length s ->
  (substring 0 n s ++ substring n (String.length s - n) s)%string = s.
Proof.
  induction n as [|n IH]; intros s Hn.
  - rewrite Nat.sub_0_r, substring_full. now destruct s.
  - destruct s as [|c s]; cbn in Hn; [lia|].
    cbn. rewrite IH by lia. reflexivity.
Qed.

(** [strings.HasSuffix], by slicing, holds when and only when the string
    ends with the suffix. *)
Lemma strings_HasSuffix_spec s suffix :
  strings_HasSuffix s suffix = true <-> exists p, s = (p ++ suffix)%string.
Proof.
  unfold strings_HasSuffix. rewrite andb_true_iff, Nat.leb_le, String.eqb_eq.
  split.
  - intros [Hle Hsub].
    exists (substring 0 (String.length s - String.length suffix) s).
    pose proof (@substring_split (String.length s - String.length suffix) s) as H.
    replace (String.length s - (String.length s - String.length suffix))
      with (String.length suffix) in H by lia.
    rewrite Hsub in H. symmetry. apply H. lia.
  - intros [p ->]. rewrite length_append. split; [lia|].
    replace (String.length p + String.length suffix - String.length suffix)
      with (String.length p) by lia.
    apply substring_skip.
Qed.

Lemma lower_byte_idem c : lower_byte (lower_byte c) = lower_byte c.
Proof. destruct c as [[] [] [] [] [] [] [] []]; reflexivity. Qed.

Lemma strings_ToLower_idem s :
  strings_ToLower (strings_ToLower s) = strings_ToLower s.
Proof.
  induction s as [|c s IH]; cbn; [reflexivity|].
  now rewrite lower_byte_idem, IH.
Qed.

(** X2: the dotnet task matches exactly the file names that end, once
    lowered, in [.csproj] or [.sln] (an empty stem included: [.sln] itself
    matches); the case of the letters of a name plays no part, and the
    predicate leaves the state alone. *)
Theorem X2_dotnet_match_ignores_case s w :
  (fst (matches runner_dotnet s w) = true <->
   exists stem, strings_ToLower s = (stem ++ ".csproj")%string \/
                strings_ToLower s = (stem ++ ".sln")%string) /\
  matches runner_dotnet (strings_ToLower s) w = matches runner_dotnet s w /\
  snd (matches runner_dotnet s w) = w.
Proof.
  cbn [matches runner_dotnet ret fst snd]. split; [|split; [|reflexivity]].
  - rewrite orb_true_iff, !strings_HasSuffix_spec. split.
    + intros [[p Hp]|[p Hp]]; exists p; auto.
    + intros [p [Hp|Hp]]; [left|right]; now exists p.
  - now rewrite strings_ToLower_idem.
Qed.

(** ** The tasks [main] keeps and its exit codes *)

(** X3: the availability filter looks up the executable of each of the four
    rows once, in the order of the catalogue, whatever the lookups give and
    with or without [-dry]; it keeps the rows whose executable is found, in
    that order, and changes nothing else.  The flag [-dry] changes the [run]
    of the kept tasks only: their availability and match predicates are the
    same. *)
Theorem X3_availability_filter dry w :
  keep_available [] (apply_dry dry runners) w =
    (map (fun k => runner_Task (entry dry k))
         (filter (fun k => exec_LookPath (fs w) (executable k)) tools),
     mkWorld (fs w) (trace w ++ lookups)) /\
  map Matches (tasks_for true (fs w)) = map Matches (tasks_for false (fs w)) /\
  map Available (tasks_for true (fs w)) = map Available (tasks_for false (fs w)).
Proof.
  split; [now rewrite keep_available_catalogue, tasks_for_eq|].
  rewrite !tasks_for_eq, !map_map.
  split; apply map_ext; intros []; reflexivity.
Qed.

Lemma tasks_for_nil dry f :
  tasks_for dry f = [] <-> forall k, exec_LookPath f (executable k) = false.
Proof.
  rewrite tasks_for_eq. unfold tools. cbn [filter]. split.
  - intros H k.
    destruct (exec_LookPath f (executable Composer)) eqn:H1; [discriminate H|].
    destruct (exec_LookPath f (executable Npm)) eqn:H2; [discriminate H|].
    destruct (exec_LookPath f (executable Cargo)) eqn:H3; [discriminate H|].
    destruct (exec_LookPath f (executable Dotnet)) eqn:H4; [discriminate H|].
    now destruct k.
  - intros H. now rewrite !H.
Qed.

Lemma clear_caches_code dry w :
  fst (clear_caches dry w) = 0 \/ fst (clear_caches dry w) = 1.
Proof.
  destruct dry; [now left|]. rewrite clear_caches_spec.
  destruct (clear_all_trace cache_commands w) as [[H _]|[H _]]; auto.
Qed.

(** X4: once [flag.Parse] has returned, with the value [dry] of the flag
    and the positional arguments [args], and whatever the fuel, the rest of
    [main] ends with exit code 2 exactly when the root path cannot be made
    absolute or none of the four tools (composer, npm, cargo, dotnet) is
    found; a run that ends there has exit code 0, 1 or 2.  (A command line
    that [flag.Parse] refuses ends the program inside [flag.Parse], before
    any of this.) *)
Theorem X4_exit_codes fuel dry args w :
  (fst (main fuel dry args w) = Returned errorParseExitCode <->
   (exists err, filepath_Abs (fs w) (root_path args) = inl err) \/
   (forall k, exec_LookPath (fs w) (executable k) = false)) /\
  (forall code, fst (main fuel dry args w) = Returned code ->
     code = 0 \/ code = 1 \/ code = 2).
Proof.
  rewrite main_eq.
  destruct (filepath_Abs (fs w) (root_path args)) as [err|absPath] eqn:Habs.
  - cbn [fst]. split.
    + split; [intros _; left; now exists err|reflexivity].
    + intros code [= <-]. auto.
  - cbv zeta. rewrite <- (tasks_for_nil dry (fs w)).
    destruct (tasks_for dry (fs w)) as [|t ts] eqn:Ht; cbn [length Nat.eqb fst].
    + split.
      * split; [intros _; now right|reflexivity].
      * intros code [= <-]. auto.
    + destruct (Walk fuel absPath (t :: ts) _) as [[|[e|]] w2]; cbn [fst].
      * split; [split; [discriminate|intros [[e He]|He]; discriminate]|].
        intros code H. discriminate H.
      * split; [split; [discriminate|intros [[e' He]|He]; discriminate]|].
        intros code [= <-]. auto.
      * destruct (clear_caches_code dry w2) as [Hc|Hc]; rewrite Hc.
        -- split; [split; [discriminate|intros [[e' He]|He]; discriminate]|].
           intros code [= <-]. auto.
        -- split; [split; [discriminate|intros [[e' He]|He]; discriminate]|].
           intros code [= <-]. auto.
Qed.

(** ** The errors of a traversal *)

Section Post.

Variable Q : error -> World -> Prop.
Variable tasks : list Task.

Hypothesis Q_read : forall p w e,
  fst (ioutil_ReadDir p w) = inl e ->
  Q (Errorf "failed to read file entries of directory %q: %w" p e)
    (snd (ioutil_ReadDir p w)).
Hypothesis Q_run : forall t, In t tasks -> forall p w e,
  fst (Run t p w) = Some e -> Q e (snd (Run t p w)).

Lemma try_tasks_post path x ts w e :
  incl ts tasks ->
  fst (try_tasks path x ts w) = Some (Some e) ->
  Q e (snd (try_tasks path x ts w)).
Proof.
  revert w. induction ts as [|t ts IH]; intros w Hin; cbn [try_tasks].
  - discriminate.
  - rewrite bind_run. destruct (fst (Matches t (Name x) w)).
    + rewrite !bind_run. cbn [ret fst snd]. intros [= He].
      apply Q_run; [apply Hin; now left|exact He].
    + apply IH. intros y Hy. apply Hin. now right.
Qed.

Lemma first_loop_post path entries w e :
  fst (first_loop path tasks entries w) = Some (Some e) ->
  Q e (snd (first_loop path tasks entries w)).
Proof.
  revert w. induction entries as [|x xs IH]; intros w; cbn [first_loop].
  - discriminate.
  - destruct (IsDir x); [apply IH|]. rewrite bind_run.
    pose proof (@try_tasks_post path x tasks w) as Ht.
    destruct (try_tasks path x tasks w) as [[r|] w1]; cbn [fst snd] in *.
    + intros [= ->]. apply Ht; [apply incl_refl|reflexivity].
    + apply IH.
Qed.

Lemma second_loop_post walk path entries w e :
  (forall p w0 e0, fst (walk p tasks w0) = Returned (Some e0) ->
                   Q e0 (snd (walk p tasks w0))) ->
  fst (second_loop walk path tasks entries w) = Returned (Some e) ->
  Q e (snd (second_loop walk path tasks entries w)).
Proof.
  intros Hwalk. revert w. induction entries as [|x xs IH]; intros w;
    cbn [second_loop].
  - discriminate.
  - destruct (IsDir x); [|apply IH]. rewrite bind_run.
    pose proof (Hwalk (filepath_Join path (Name x)) w) as Hw.
    destruct (walk (filepath_Join path (Name x)) tasks w) as [[|[err|]] w1];
      cbn [fst snd] in *.
    + discriminate.
    + intros [= <-]. now apply Hw.
    + apply IH.
Qed.

Lemma Walk_post fuel : forall path w e,
  fst (Walk fuel path tasks w) = Returned (Some e) ->
  Q e (snd (Walk fuel path tasks w)).
Proof.
  induction fuel as [|n IH]; intros path w e; cbn [Walk].
  - discriminate.
  - rewrite bind_run. pose proof (Q_read path w) as Hr.
    destruct (ioutil_ReadDir path w) as [[err|entries] w1]; cbn [fst snd] in *.
    + intros [= <-]. now apply Hr.
    + rewrite bind_run.
      pose proof (@first_loop_post path entries w1) as Hf.
      destruct (first_loop path tasks entries w1) as [[r|] w2];
        cbn [fst snd] in *.
      * intros [= ->]. now apply Hf.
      * apply second_loop_post. exact IH.
Qed.

End Post.

(** X5: with the tasks of the catalogue, when [Walk] returns an error the
    last call of the trace is the one that failed: the traversal stopped
    there, and the error is the wrapped form that names it (the directory
    that could not be listed, the path that could not be removed, the
    command that failed); an error is never returned as the system gave
    it. *)
Theorem X5_walk_stops_at_the_failing_call dry fuel path tasks w err :
  catalogue_tasks dry tasks ->
  fst (Walk fuel path tasks w) = Returned (Some err) ->
  exists tr ev,
    trace (snd (Walk fuel path tasks w)) = tr ++ [ev] /\ failing_call err ev.
Proof.
  intros Hc.
  apply (@Walk_post
           (fun e w' => exists tr ev, trace w' = tr ++ [ev] /\ failing_call e ev)).
  - intros p w0 e He. exists (trace w0), (EvReadDir p). split.
    + unfold ioutil_ReadDir. now destruct (os_Readdir (fs w0) p).
    + left. now exists p, e.
  - intros t Ht p w0 e. destruct (Hc t Ht) as [k ->].
    destruct dry; [rewrite entry_Run_dry; discriminate|].
    destruct k; cbn [entry runner_of runner_Task Run run runner_composer
                       runner_npm runner_cargo runner_dotnet];
      rewrite bind_run.
    + unfold RemoveAll.
      destruct (os_RemoveAll _ (fs w0)) as [[e0|] f1]; cbn [fst snd];
        [destruct (os_IsNotExist e0)|]; try discriminate.
      intros [= <-]. eexists _, _. split; [reflexivity|].
      right; left. now eexists _, _.
    + unfold RemoveAll.
      destruct (os_RemoveAll _ (fs w0)) as [[e0|] f1]; cbn [fst snd];
        [destruct (os_IsNotExist e0)|]; try discriminate.
      intros [= <-]. eexists _, _. split; [reflexivity|].
      right; left. now eexists _, _.
    + unfold cmd_Run.
      destruct (exec_Run _ (fs w0)) as [[[e0|] out] f1]; cbn [fst snd];
        try discriminate.
      intros [= <-]. eexists _, _. split; [reflexivity|].
      right; right. now eexists _, _.
    + unfold cmd_CombinedOutput.
      destruct (exec_Run _ (fs w0)) as [[[e0|] out] f1]; cbn [fst snd];
        rewrite ?bind_run; discriminate.
Qed.

Lemma Walk_dry_error fuel path tasks w err :
  catalogue_tasks true tasks ->
  fst (Walk fuel path tasks w) = Returned (Some err) ->
  exists p e tr,
    err = Errorf "failed to read file entries of directory %q: %w" p e /\
    os_Readdir (fs (snd (Walk fuel path tasks w))) p = inl e /\
    trace (snd (Walk fuel path tasks w)) = tr ++ [EvReadDir p].
Proof.
  intros Hc.
  apply (@Walk_post
    (fun e w' => exists p e0 tr,
       e = Errorf "failed to read file entries of directory %q: %w" p e0 /\
       os_Readdir (fs w') p = inl e0 /\ trace w' = tr ++ [EvReadDir p])).
  - intros p w0 e He. exists p, e, (trace w0). unfold ioutil_ReadDir in *.
    destruct (os_Readdir (fs w0) p) as [e0|l] eqn:Hr; cbn [fst snd fs trace] in *;
      [|discriminate].
    injection He as ->. auto.
  - intros t Ht p w0 e. destruct (Hc t Ht) as [k ->].
    rewrite entry_Run_dry. discriminate.
Qed.

(** X6: under [-dry] the only way to exit code 1 is a directory that cannot
    be listed: the run ends right after the failed listing with the
    diagnostic that names the directory, and the file system is as it
    was. *)
Theorem X6_dry_run_fails_on_listings_only fuel args w :
  fst (main fuel true args w) = Returned errorExitCode ->
  exists p e tr,
    os_Readdir (fs w) p = inl e /\
    fs (snd (main fuel true args w)) = fs w /\
    trace (snd (main fuel true args w)) =
      tr ++ [EvReadDir p;
             EvStderr "purging failed with an error: %v\n"
               [AErr (Errorf "failed to read file entries of directory %q: %w"
                        p e)]].
Proof.
  rewrite main_eq.
  destruct (filepath_Abs (fs w) (root_path args)) as [err|absPath];
    [discriminate|]. cbv zeta.
  destruct (length (tasks_for true (fs w)) =? 0)%nat; [discriminate|].
  set (w1 := mkWorld (fs w) (trace w ++ lookups)).
  pose proof (@quiet_Walk_dry fuel absPath (tasks_for true (fs w)) w1
                (@tasks_for_catalogue true (fs w))) as [Hfs _].
  pose proof (@Walk_dry_error fuel absPath (tasks_for true (fs w)) w1) as HE.
  destruct (Walk fuel absPath (tasks_for true (fs w)) w1) as [[|[err|]] w2];
    cbn [fst snd] in *; try discriminate.
  intros _.
  destruct (HE err (@tasks_for_catalogue true (fs w)) eq_refl)
    as [p [e [tr [-> [Hr Ht]]]]].
  rewrite Hfs in Hr. exists p, e, tr. split; [exact Hr|]. split; [exact Hfs|].
  cbn [trace]. rewrite Ht, <- app_assoc. reflexivity.
Qed.

(** ** A traversal follows the listings *)

Lemma replay_app f d1 d2 : replay f (d1 ++ d2) = replay (replay f d1) d2.
Proof.
  revert f. induction d1 as [|ev d1 IH]; intros f; [reflexivity|].
  destruct ev; cbn [app replay]; apply IH.
Qed.

Lemma all_justified_app f0 K d1 d2 :
  all_justified f0 K d1 -> all_justified f0 (K ++ d1) d2 ->
  all_justified f0 K (d1 ++ d2).
Proof.
  revert K. induction d1 as [|ev d1 IH]; intros K H1 H2; cbn in *.
  - now rewrite app_nil_r in H2.
  - destruct H1 as [Hev H1]. split; [exact Hev|].
    apply IH; [exact H1|]. now rewrite <- app_assoc.
Qed.

Lemma advances_refl f0 K w : fs w = replay f0 K -> advances f0 K w w.
Proof.
  intros Hf. exists []. unfold extends. rewrite !app_nil_r. now repeat split.
Qed.

Lemma advances_step f0 K w w1 w2 d1 :
  extends w w1 d1 -> all_justified f0 K d1 ->
  advances f0 (K ++ d1) w1 w2 -> advances f0 K w w2.
Proof.
  intros He H1 [d2 [He2 [Hf2 H2]]]. exists (d1 ++ d2). repeat split.
  - unfold extends in *. now rewrite He2, He, app_assoc.
  - now rewrite app_assoc.
  - now apply all_justified_app.
Qed.

Section Rooted.

Variable dry : bool.
Variable tasks : list Task.
Hypothesis tasks_catalogue : catalogue_tasks dry tasks.

(** The traversal started on [f0]; the directory [path] was listed after
    the calls [ctx] and the system returned [l]. *)
Variable f0 : FS.
Variable ctx : list Event.
Variable path : string.
Variable l : list FileInfo.
Hypothesis listing : os_Readdir (replay f0 ctx) path = inr l.

Lemma listed_here post x : In x l ->
  listed_entry f0 (ctx ++ EvReadDir path :: post) path x.
Proof. intros Hx. now exists ctx, post, l. Qed.

Lemma hit_advances k x w :
  In x l -> IsDir x = false -> manifest k (Name x) = true ->
  fs w = replay f0 (ctx ++ [EvReadDir path]) ->
  advances f0 (ctx ++ [EvReadDir path]) w
    (snd (Run (runner_Task (entry dry k)) (filepath_Join path (Name x))
            (snd (Fprintln_Stdout (filepath_Join path (Name x)) w)))).
Proof.
  intros Hx Hd Hm Hf.
  set (K := ctx ++ [EvReadDir path]) in *.
  set (m := filepath_Join path (Name x)).
  assert (Hline : justified f0 K (EvStdout m)).
  { exists path, x. repeat split; auto. now apply listed_here. }
  assert (Hml : match_line f0 (K ++ [EvStdout m]) path x).
  { exists K. repeat split; auto. now apply listed_here. }
  assert (Hexec : forall c, cmd_Dir c = filepath_Dir m ->
                            justified f0 (K ++ [EvStdout m]) (EvExec c)).
  { intros c Hc. now exists path, x. }
  unfold advances, extends. destruct dry.
  - rewrite entry_Run_dry. exists [EvStdout m; EvStdout m]. repeat split; auto.
    + cbn. now rewrite <- app_assoc.
    + rewrite replay_app. cbn. exact Hf.
    + exists path, x. repeat split; auto.
      unfold K. rewrite <- app_assoc. now apply listed_here.
  - destruct k; cbn [manifest] in Hm;
      cbn [entry runner_of runner_Task Run run runner_composer
             runner_npm runner_cargo runner_dotnet];
      rewrite bind_run.
    + apply String.eqb_eq in Hm. unfold RemoveAll.
      cbn [Fprintln_Stdout emit snd fs].
      exists [EvStdout m; EvRemoveAll (filepath_Join (filepath_Dir m) "vendor")].
      destruct (os_RemoveAll _ (fs w)) as [[e|] f1] eqn:Hrm; cbn [fst snd];
        try destruct (os_IsNotExist e); cbn [ret fst snd fs trace];
        repeat split; auto.
      all: try (now rewrite <- app_assoc).
      all: try (rewrite replay_app; cbn; rewrite <- Hf, Hrm; reflexivity).
      all: exists path, x; split; [exact Hml|left; split; [exact Hm|reflexivity]].
    + apply String.eqb_eq in Hm. unfold RemoveAll.
      cbn [Fprintln_Stdout emit snd fs].
      exists [EvStdout m;
              EvRemoveAll (filepath_Join (filepath_Dir m) "node_modules")].
      destruct (os_RemoveAll _ (fs w)) as [[e|] f1] eqn:Hrm; cbn [fst snd];
        try destruct (os_IsNotExist e); cbn [ret fst snd fs trace];
        repeat split; auto.
      all: try (now rewrite <- app_assoc).
      all: try (rewrite replay_app; cbn; rewrite <- Hf, Hrm; reflexivity).
      all: exists path, x; split; [exact Hml|right; split; [exact Hm|reflexivity]].
    + unfold cmd_Run. cbn [Fprintln_Stdout emit snd fs].
      exists [EvStdout m;
              EvExec (mkCmd (appName "cargo") ["clean"] (filepath_Dir m))].
      destruct (exec_Run _ (fs w)) as [[[e|] out] f1] eqn:Hex;
        cbn [ret fst snd fs trace]; repeat split; auto.
      all: try (now rewrite <- app_assoc).
      all: rewrite replay_app; cbn; rewrite <- Hf, Hex; reflexivity.
    + unfold cmd_CombinedOutput. cbn [Fprintln_Stdout emit snd fs].
      destruct (exec_Run _ (fs w)) as [[[e|] out] f1] eqn:Hex; cbn [fst snd].
      * rewrite bind_run.
        exists [EvStdout m;
                EvExec (mkCmd (appName "dotnet") ["clean"; "--nologo"]
                          (filepath_Dir m));
                EvStderr "failed to run command %q: %v\n%s\n"
                  [AStr (Cmd_String (mkCmd (appName "dotnet")
                                       ["clean"; "--nologo"] (filepath_Dir m)));
                   AErr e; AStr out]].
        cbn [Fprintf_Stderr emit ret fst snd fs trace]. repeat split; auto.
        -- now rewrite <- !app_assoc.
        -- rewrite replay_app. cbn. rewrite <- Hf, Hex. reflexivity.
      * exists [EvStdout m;
                EvExec (mkCmd (appName "dotnet") ["clean"; "--nologo"]
                          (filepath_Dir m))].
        cbn [ret fst snd fs trace]. repeat split; auto.
        -- now rewrite <- app_assoc.
        -- rewrite replay_app. cbn. rewrite <- Hf, Hex. reflexivity.
Qed.

Lemma try_tasks_advances x ts w :
  In x l -> IsDir x = false -> incl ts tasks ->
  fs w = replay f0 (ctx ++ [EvReadDir path]) ->
  (fst (try_tasks path x ts w) = None /\ snd (try_tasks path x ts w) = w) \/
  ((exists r, fst (try_tasks path x ts w) = Some r) /\
   advances f0 (ctx ++ [EvReadDir path]) w (snd (try_tasks path x ts w))).
Proof.
  intros Hx Hd Hin Hf. induction ts as [|t ts IH]; cbn [try_tasks].
  - now left.
  - destruct (tasks_catalogue t (Hin t (or_introl eq_refl))) as [k ->].
    rewrite bind_run, entry_Matches. cbn [fst snd].
    destruct (manifest k (Name x)) eqn:Hm.
    + right. rewrite !bind_run. cbn [ret fst snd]. split; [eauto|].
      now apply hit_advances.
    + apply IH. intros y Hy. apply Hin. now right.
Qed.

Lemma first_loop_advances entries w :
  incl entries l ->
  fs w = replay f0 (ctx ++ [EvReadDir path]) ->
  (fst (first_loop path tasks entries w) = None /\
   snd (first_loop path tasks entries w) = w) \/
  ((exists r, fst (first_loop path tasks entries w) = Some r) /\
   advances f0 (ctx ++ [EvReadDir path]) w
     (snd (first_loop path tasks entries w))).
Proof.
  intros Hin Hf. induction entries as [|x xs IH]; cbn [first_loop].
  - now left.
  - assert (Hxs : incl xs l) by (intros y Hy; apply Hin; now right).
    destruct (IsDir x) eqn:Hd; [now apply IH|].
    rewrite bind_run.
    destruct (@try_tasks_advances x tasks w (Hin x (or_introl eq_refl)) Hd
                (incl_refl tasks) Hf) as [[Hn Hw]|[[r Hr] Ha]].
    + rewrite Hn, Hw. now apply IH.
    + rewrite Hr. right. cbn [ret fst snd]. split; [eauto|exact Ha].
Qed.

Lemma second_loop_advances walk entries :
  (forall child K w0, fs w0 = replay f0 K ->
     exists d, extends w0 (snd (walk child tasks w0)) d /\
               fs (snd (walk child tasks w0)) = replay f0 (K ++ d) /\
               rooted f0 K child d) ->
  incl entries l ->
  forall acc w,
    fs w = replay f0 (ctx ++ EvReadDir path :: acc) ->
    advances f0 (ctx ++ EvReadDir path :: acc) w
      (snd (second_loop walk path tasks entries w)).
Proof.
  intros Hwalk Hin. induction entries as [|x xs IH]; intros acc w Hf;
    cbn [second_loop].
  - now apply advances_refl.
  - assert (Hxs : incl xs l) by (intros y Hy; apply Hin; now right).
    destruct (IsDir x) eqn:Hd; [|now apply IH].
    rewrite bind_run.
    destruct (Hwalk (filepath_Join path (Name x)) _ w Hf) as [d [He [Hfd Hr]]].
    assert (Hj : all_justified f0 (ctx ++ EvReadDir path :: acc) d).
    { destruct Hr as [->|[d' [-> Hd']]]; [exact I|]. split; [|exact Hd'].
      exists path, x. repeat split; auto.
      apply listed_here. apply Hin. now left. }
    destruct (walk (filepath_Join path (Name x)) tasks w) as [[|[err|]] w1];
      cbn [fst snd] in *.
    + now exists d.
    + now exists d.
    + apply advances_step with (w1 := w1) (d1 := d); auto.
      rewrite <- app_assoc. cbn [app]. apply IH; [exact Hxs|].
      rewrite Hfd, <- app_assoc. reflexivity.
Qed.

End Rooted.

Lemma Walk_rooted dry tasks f0 fuel :
  catalogue_tasks dry tasks ->
  forall path ctx w,
    fs w = replay f0 ctx ->
    exists d, extends w (snd (Walk fuel path tasks w)) d /\
              fs (snd (Walk fuel path tasks w)) = replay f0 (ctx ++ d) /\
              rooted f0 ctx path d.
Proof.
  intros Hc. induction fuel as [|n IH]; intros path ctx w Hf; cbn [Walk].
  - exists []. unfold extends. rewrite !app_nil_r. repeat split; auto. now left.
  - rewrite bind_run. unfold ioutil_ReadDir.
    set (w1 := mkWorld (fs w) (trace w ++ [EvReadDir path])).
    assert (Hf1 : fs w1 = replay f0 (ctx ++ [EvReadDir path]))
      by (rewrite replay_app; exact Hf).
    destruct (os_Readdir (fs w) path) as [err|l] eqn:Hl; cbn [fst snd].
    + exists [EvReadDir path]. repeat split; auto. right. now exists [].
    + rewrite Hf in Hl.
      assert (Hsort : incl (sort_by_name l) l)
        by (intros y Hy; now apply sort_by_name_In).
      assert (Hdone : forall w2,
                advances f0 (ctx ++ [EvReadDir path]) w1 w2 ->
                exists d, extends w w2 d /\ fs w2 = replay f0 (ctx ++ d) /\
                          rooted f0 ctx path d).
      { intros w2 [d1 [He1 [Hf2 Hj]]]. exists (EvReadDir path :: d1).
        repeat split.
        - unfold extends in *. rewrite He1. cbn. now rewrite <- app_assoc.
        - rewrite Hf2, <- app_assoc. reflexivity.
        - right. now exists d1. }
      rewrite bind_run.
      destruct (@first_loop_advances dry tasks Hc f0 ctx path l Hl
                  (sort_by_name l) w1 Hsort Hf1) as [[Hn Hw]|[[r Hr] Ha]].
      * rewrite Hn, Hw. apply Hdone.
        apply (@second_loop_advances tasks f0 ctx path l Hl (Walk n)
                 (sort_by_name l)); auto.
      * rewrite Hr. cbn [ret snd]. now apply Hdone.
Qed.

(** X7: a traversal with the tasks [main] builds only goes where the
    listings lead it.  Its first call is the listing of the root; every
    later listing is that of a directory entry some earlier listing of the
    traversal returned; every line is the path of a non-directory entry of
    such a listing; every removal comes right after the line for a
    [composer.json] (a [package.json]) and is that of its [vendor] (its
    [node_modules]) sibling; every child process comes right after the line
    for a file and runs in its directory; and the file system changes
    through these removals and child processes only. *)
Theorem X7_walk_follows_the_listings dry f fuel root w :
  exists d,
    extends w (snd (Walk fuel root (tasks_for dry f) w)) d /\
    fs (snd (Walk fuel root (tasks_for dry f) w)) = replay (fs w) d /\
    rooted (fs w) [] root d.
Proof.
  apply (@Walk_rooted dry (tasks_for dry f) (fs w) fuel
           (@tasks_for_catalogue dry f) root [] w).
  reflexivity.
Qed.

(** ** Termination of a dry traversal *)

Lemma quiet_first_loop_dry path tasks entries w :
  catalogue_tasks true tasks -> quiet w (snd (first_loop path tasks entries w)).
Proof.
  intros Hc. apply first_loop_preserves.
  - apply quiet_refl.
  - apply quiet_trans.
  - intros t Ht name w0 _. destruct (Hc t Ht) as [k ->].
    rewrite entry_Matches. apply quiet_refl.
  - intros t Ht p name w0 _. destruct (Hc t Ht) as [k ->].
    rewrite entry_Matches, entry_Run_dry. cbn [snd].
    eapply quiet_trans; now apply quiet_emit.
Qed.

Lemma second_loop_returns_dry f n path tasks :
  catalogue_tasks true tasks ->
  (forall p w0, fs w0 = f -> bounded f n p ->
     exists r, fst (Walk n p tasks w0) = Returned r) ->
  forall entries w,
    fs w = f ->
    (forall x, In x entries -> IsDir x = true ->
       bounded f n (filepath_Join path (Name x))) ->
    exists r, fst (second_loop (Walk n) path tasks entries w) = Returned r.
Proof.
  intros Hc Hwalk. induction entries as [|x xs IH]; intros w Hf Hb;
    cbn [second_loop].
  - now exists None.
  - assert (Hb' : forall y, In y xs -> IsDir y = true ->
                    bounded f n (filepath_Join path (Name y)))
      by (intros y Hy; apply Hb; now right).
    destruct (IsDir x) eqn:Hd; [|now apply IH].
    rewrite bind_run.
    destruct (Hwalk (filepath_Join path (Name x)) w Hf
                (Hb x (or_introl eq_refl) Hd)) as [r Hr].
    pose proof (@quiet_Walk_dry n (filepath_Join path (Name x)) tasks w Hc)
      as [Hfs _].
    rewrite Hr. destruct r as [err|].
    + now exists (Some err).
    + apply IH; [congruence|exact Hb'].
Qed.

(** X9: under [-dry] a traversal of a tree that is at most [fuel] levels
    deep returns: the fuel is not used up, whether the directories can be
    listed or not. *)
Theorem X9_dry_walk_terminates fuel : forall path tasks w,
  catalogue_tasks true tasks ->
  bounded (fs w) fuel path ->
  exists r, fst (Walk fuel path tasks w) = Returned r.
Proof.
  induction fuel as [|n IH]; intros path tasks w Hc Hb.
  - inversion Hb.
  - cbn [Walk]. rewrite bind_run. unfold ioutil_ReadDir.
    inversion Hb as [n0 p0 e He|n0 p0 l Hl Hsub]; subst.
    + rewrite He. cbn. eauto.
    + rewrite Hl. cbn [fst snd]. rewrite bind_run.
      set (w1 := mkWorld (fs w) (trace w ++ [EvReadDir path])).
      pose proof (@quiet_first_loop_dry path tasks (sort_by_name l) w1 Hc)
        as [Hfs _].
      destruct (first_loop path tasks (sort_by_name l) w1) as [[r|] w2];
        cbn [fst snd] in *.
      * cbn. eauto.
      * apply (@second_loop_returns_dry (fs w) n path tasks Hc).
        -- intros p w0 Hf0 Hb0. apply IH; [exact Hc|now rewrite Hf0].
        -- exact Hfs.
        -- intros x Hx. rewrite sort_by_name_In in Hx. now apply Hsub.
Qed.

(** X10: when the root itself cannot be listed (it is missing, is not a
    directory or cannot be read), a run with at least one tool installed
    and some fuel ends with exit code 1 after the lookups, the failed
    listing and the diagnostic that names the root; with or without [-dry]
    nothing is printed, nothing is removed and no cache is cleared. *)
Theorem X10_unlistable_root fuel dry args w absPath k e :
  filepath_Abs (fs w) (root_path args) = inr absPath ->
  exec_LookPath (fs w) (executable k) = true ->
  os_Readdir (fs w) absPath = inl e ->
  main (S fuel) dry args w =
    (Returned errorExitCode,
     mkWorld (fs w)
       (trace w ++ lookups ++
        [EvReadDir absPath;
         EvStderr "purging failed with an error: %v\n"
           [AErr (Errorf "failed to read file entries of directory %q: %w"
                    absPath e)]])).
Proof.
  intros Habs Hk Hr. rewrite main_eq, Habs. cbv zeta.
  destruct (tasks_for dry (fs w)) as [|t ts] eqn:Ht.
  - apply tasks_for_nil with (k := k) in Ht. congruence.
  - cbn [length Nat.eqb Walk]. rewrite bind_run. unfold ioutil_ReadDir.
    cbn [fs]. rewrite Hr. cbn. now rewrite <- !app_assoc.
Qed.

(** ** Which task fires in a directory *)

Lemma try_tasks_entries_hit dry path x k ks w :
  In k ks -> manifest k (Name x) = true ->
  try_tasks path x (map (fun k => runner_Task (entry dry k)) ks) w =
    let file := filepath_Join path (Name x) in
    let w2 := snd (Fprintln_Stdout file w) in
    (Some (fst (Run (runner_Task (entry dry k)) file w2)),
     snd (Run (runner_Task (entry dry k)) file w2)).
Proof.
  intros Hin Hm. induction ks as [|k0 ks IH]; [destruct Hin|].
  cbn [map try_tasks]. rewrite bind_run, entry_Matches. cbn [fst snd].
  destruct (manifest k0 (Name x)) eqn:Hm0.
  - rewrite (manifest_unique _ _ _ Hm0 Hm), !bind_run. reflexivity.
  - apply IH. destruct Hin as [->|Hin]; [congruence|exact Hin].
Qed.

Lemma first_loop_first_manifest dry path k ks n l w :
  StronglySorted name_le l ->
  In k ks -> manifest k n = true ->
  (exists e, In e l /\ Name e = n /\ IsDir e = false) ->
  (forall x, In x l -> IsDir x = false -> (Name x <? n) = true ->
     forall k', In k' ks -> manifest k' (Name x) = false) ->
  first_loop path (map (fun k => runner_Task (entry dry k)) ks) l w =
    let file := filepath_Join path n in
    let w2 := snd (Fprintln_Stdout file w) in
    (Some (fst (Run (runner_Task (entry dry k)) file w2)),
     snd (Run (runner_Task (entry dry k)) file w2)).
Proof.
  intros Hs Hk Hm. induction Hs as [|x l Hs IH Hx]; intros [e [He [Hn Hd]]] Hlow.
  - destruct He.
  - cbn [first_loop].
    assert (Htail : x <> e -> In e l) by (destruct He; congruence).
    assert (Hlow' : forall y, In y l -> IsDir y = false ->
              (Name y <? n) = true ->
              forall k', In k' ks -> manifest k' (Name y) = false).
    { intros y Hy. apply Hlow. now right. }
    destruct (IsDir x) eqn:Hdx.
    + apply IH; auto. exists e. repeat split; auto.
      apply Htail. intros ->. congruence.
    + rewrite bind_run. destruct (Name x =? n) eqn:Hnx.
      * apply String.eqb_eq in Hnx. rewrite <- Hnx in Hm |- *.
        rewrite (@try_tasks_entries_hit dry path x k ks w Hk Hm).
        reflexivity.
      * apply String.eqb_neq in Hnx.
        assert (Hin : In e l) by (apply Htail; intros ->; congruence).
        assert (Hlt : (Name x <? n) = true).
        { apply leb_neq_ltb; [|exact Hnx]. rewrite <- Hn.
          rewrite Forall_forall in Hx. now apply Hx. }
        rewrite try_tasks_entries_miss.
        -- cbn [fst snd]. apply IH; auto. exists e. auto.
        -- intros k' Hk'. apply Hlow; auto. now left.
Qed.

(** X11: in a directory that can be listed, the task that fires is decided
    by the names of the files: it is the task of the first file, in the
    byte order of the names, that is a manifest of an installed tool, and it
    fires on that file; nothing else happens in the directory.  The order of
    the catalogue plays no part. *)
Theorem X11_first_manifest_by_name_fires dry f fuel path w raw e k :
  os_Readdir (fs w) path = inr raw ->
  In e raw -> IsDir e = false ->
  manifest k (Name e) = true ->
  exec_LookPath f (executable k) = true ->
  (forall x k', In x raw -> IsDir x = false ->
     (Name x <? Name e) = true ->
     exec_LookPath f (executable k') = true -> manifest k' (Name x) = false) ->
  fires_only fuel path (tasks_for dry f) (runner_Task (entry dry k))
    (filepath_Join path (Name e)) (fun w1 => w1) w.
Proof.
  intros Hraw He Hd Hm Hav Hlow. unfold fires_only. cbn [Walk].
  rewrite bind_run. unfold ioutil_ReadDir at 1 2. rewrite Hraw. cbn [fst snd].
  rewrite bind_run, tasks_for_eq.
  set (ks := filter (fun k => exec_LookPath f (executable k)) tools).
  assert (Hk : In k ks).
  { apply filter_In. split; [destruct k; cbn; auto|exact Hav]. }
  rewrite (@first_loop_first_manifest dry path k ks (Name e)).
  - cbn [fst snd]. unfold ioutil_ReadDir. rewrite Hraw. cbn [snd]. unfold ret.
    now destruct (Run _ _ _).
  - apply sort_by_name_sorted.
  - exact Hk.
  - exact Hm.
  - exists e. rewrite sort_by_name_In. auto.
  - intros x Hx Hdx Hlt k' Hk'. rewrite sort_by_name_In in Hx.
    apply filter_In in Hk'. apply (Hlow x k'); tauto.
Qed.

(** ** The order of a listing does not depend on the system *)

Lemma name_injective l x y :
  NoDup (map Name l) -> In x l -> In y l -> Name x = Name y -> x = y.
Proof.
  induction l as [|z l IH]; intros Hnd Hx Hy Hn; [destruct Hx|].
  cbn in Hnd. inversion Hnd as [|n ns Hnotin Hnd']; subst.
  destruct Hx as [->|Hx], Hy as [->|Hy]; auto.
  - exfalso. apply Hnotin. rewrite Hn. now apply in_map.
  - exfalso. apply Hnotin. rewrite <- Hn. now apply in_map.
Qed.

Lemma sorted_unique l1 : forall l2,
  StronglySorted name_le l1 -> StronglySorted name_le l2 ->
  NoDup (map Name l1) -> Permutation l1 l2 -> l1 = l2.
Proof.
  induction l1 as [|x1 l1 IH]; intros l2 H1 H2 Hnd Hp.
  - now apply Permutation_nil in Hp.
  - destruct l2 as [|x2 l2];
      [apply Permutation_sym, Permutation_nil in Hp; discriminate|].
    inversion H1 as [|? ? Hs1 Hf1]; subst.
    inversion H2 as [|? ? Hs2 Hf2]; subst.
    rewrite Forall_forall in Hf1, Hf2.
    assert (Hx : x1 = x2).
    { assert (In x2 (x1 :: l1))
        by (eapply Permutation_in; [apply Permutation_sym; exact Hp|now left]).
      assert (In x1 (x2 :: l2))
        by (eapply Permutation_in; [exact Hp|now left]).
      destruct H as [?|Hin2]; [assumption|].
      destruct H0 as [?|Hin1]; [congruence|].
      apply (@name_injective (x1 :: l1)); auto; [now left|now right|].
      apply String.leb_antisym; [now apply Hf1|now apply Hf2]. }
    subst x2. f_equal. apply IH; auto.
    + cbn in Hnd. now inversion Hnd.
    + eapply Permutation_cons_inv. exact Hp.
Qed.

Lemma insert_by_name_perm x l : Permutation (insert_by_name x l) (x :: l).
Proof.
  induction l as [|y l IH]; cbn; [reflexivity|].
  destruct (Name x <=? Name y); [reflexivity|].
  rewrite IH. apply perm_swap.
Qed.

Lemma sort_by_name_perm l : Permutation (sort_by_name l) l.
Proof.
  induction l as [|x l IH]; cbn; [reflexivity|].
  rewrite insert_by_name_perm. now constructor.
Qed.

(** X12: the listing [Walk] works on holds the entries the system returned,
    in the byte order of their names, and when the names are distinct it is
    the same whatever order the system returned them in: the result of a
    traversal does not depend on the order of the directory on disk. *)
Theorem X12_listing_order_is_canonical l l' :
  NoDup (map Name l) -> Permutation l l' ->
  sort_by_name l = sort_by_name l' /\
  StronglySorted name_le (sort_by_name l) /\
  Permutation (sort_by_name l) l.
Proof.
  intros Hnd Hp. split; [|split; [apply sort_by_name_sorted|apply sort_by_name_perm]].
  apply sorted_unique; try apply sort_by_name_sorted.
  - eapply Permutation_NoDup; [|exact Hnd].
    apply Permutation_map, Permutation_sym, sort_by_name_perm.
  - rewrite sort_by_name_perm, Hp. symmetry. apply sort_by_name_perm.
Qed.


End Properties.

(** * Runs on explicit inputs *)

#[local] Existing Instance Toy.toy.

Import Inputs.

(** C1: the vendor and node_modules directories of [locked_project] cannot
    be removed; [os.RemoveAll] fails with a permission error, which is not
    an "already absent" error, and both tasks return nil all the same, so
    that [Walk] reports no error although nothing was removed. *)
Theorem C1_removal_failure_is_swallowed :
  let w := Toy.start locked_project in
  fst (RemoveAll "/p/vendor" w)
    = Some (PathError "unlinkat" "/p/vendor" EACCES) /\
  os_IsNotExist (PathError "unlinkat" "/p/vendor" EACCES) = false /\
  fst (run runner_composer "/p/composer.json" w) = None /\
  fst (RemoveAll "/p/node_modules" w)
    = Some (PathError "unlinkat" "/p/node_modules" EACCES) /\
  fst (run runner_npm "/p/package.json" w) = None /\
  fst (Walk 1 "/p" (tasks_for false locked_project) w) = Returned None /\
  fs (snd (Walk 1 "/p" (tasks_for false locked_project) w)) = locked_project.
Proof. vm_compute. repeat split. Qed.

(** C2: under [-dry] the program departs from one line per match.  The
    run on [project] has one match, [/tmp/a/package.json]; without [-dry]
    standard output carries its path once, under [-dry] it carries the path
    twice: line 52 of [Walk] prints it, and the print-only function of lines
    170-173, which stands in for the action, prints it again. *)
Theorem C2_dry_run_prints_each_match_twice :
  let w := Toy.start project in
  let hit := [(Npm, "/tmp/a/package.json")] in
  matches_of_run false w (snd (main 3 false ["/tmp/a"] w)) hit /\
  stdout_lines (trace (snd (main 3 false ["/tmp/a"] w)))
    = ["/tmp/a/package.json"] /\
  matches_of_run true w (snd (main 3 true ["/tmp/a"] w)) hit /\
  stdout_lines (trace (snd (main 3 true ["/tmp/a"] w)))
    = ["/tmp/a/package.json"; "/tmp/a/package.json"] /\
  ~ one_line_per_match 3 true ["/tmp/a"] w.
Proof.
  cbv zeta.
  assert (Hg : Forall genuine [(Npm, "/tmp/a/package.json")]).
  { constructor; [|constructor].
    exists "/tmp/a", "package.json". split; reflexivity. }
  assert (Hm : matches_of_run true (Toy.start project)
                 (snd (main 3 true ["/tmp/a"] (Toy.start project)))
                 [(Npm, "/tmp/a/package.json")]).
  { exists lookups,
      [EvReadDir "/tmp/a"; EvStdout "/tmp/a/package.json";
       EvStdout "/tmp/a/package.json"], [].
    repeat split; try reflexivity. exact Hg. }
  split; [|split; [reflexivity|split; [exact Hm|split; [reflexivity|]]]].
  - exists lookups,
      [EvReadDir "/tmp/a"; EvStdout "/tmp/a/package.json";
       EvRemoveAll "/tmp/a/node_modules"],
      (map (fun c => EvExec (snd c)) cache_commands).
    repeat split; try reflexivity. exact Hg.
  - intros H. specialize (H _ Hm). vm_compute in H. discriminate H.
Qed.

(** C3 fails in the first pass: the symbolic link [package.json] of [linked]
    is matched by the npm task. *)
Lemma C3_counterexample :
  ~ excluded_from_both_passes 1 "/r" [runner_Task runner_npm] (Toy.start linked).
Proof.
  intros H.
  destruct (H [Toy.symlink "package.json"; Toy.dir "node_modules"]
              (Toy.symlink "package.json") eq_refl (or_introl eq_refl) eq_refl)
    as [Hn _].
  apply Hn. vm_compute. right. left. reflexivity.
Qed.

(** C5 fails when a manifest of another installed tool sorts first: in
    [three_manifests], with composer, npm and cargo installed, the cargo
    task fires, on [Cargo.toml]. *)
Lemma C5_counterexample :
  let t := three_manifests in
  exec_LookPath t "composer" = true /\
  exec_LookPath t "npm" = true /\
  (exists raw, os_Readdir t "/r" = inr raw /\
     In (Toy.file "composer.json") raw /\ In (Toy.file "package.json") raw) /\
  trace (snd (Walk 1 "/r" (tasks_for false t) (Toy.start t)))
    = [EvReadDir "/r"; EvStdout "/r/Cargo.toml";
       EvExec (mkCmd "cargo" ["clean"] "/r")] /\
  ~ composer_fires false 0 "/r" (tasks_for false t) (Toy.start t).
Proof.
  repeat split.
  - eexists. split; [reflexivity|]. split; cbn; auto.
  - intros H. unfold composer_fires, fires_only in H.
    apply (f_equal (fun r => trace (snd r))) in H.
    vm_compute in H. discriminate H.
Qed.

(** The npm task alone, and its verdict, which no state changes. *)
Lemma stable_npm :
  stable (verdict_in project) ([] ++ runner_Task runner_npm :: []).
Proof. intros t [<-|[]] name w. reflexivity. Defined.

(** C4 on [project]: the listing is [node_modules], [package.json], [src];
    the npm task fires on [package.json] and nothing else happens. *)
Lemma C4_witness :
  Walk 1 "/tmp/a" [runner_Task runner_npm] (Toy.start project) =
    (Returned None,
     snd (run runner_npm "/tmp/a/package.json"
            (mkWorld project [EvReadDir "/tmp/a"; EvStdout "/tmp/a/package.json"])))
  /\ trace (snd (Walk 1 "/tmp/a" [runner_Task runner_npm] (Toy.start project)))
     = [EvReadDir "/tmp/a"; EvStdout "/tmp/a/package.json";
        EvRemoveAll "/tmp/a/node_modules"].
Proof.
  assert (H : fires_only 0 "/tmp/a" ([] ++ runner_Task runner_npm :: [])
                (runner_Task runner_npm) "/tmp/a/package.json"
                (fun w1 => tested ([] ++ [runner_Task runner_npm]) "package.json"
                   (tested_files ([] ++ runner_Task runner_npm :: [])
                      [Toy.dir "node_modules"] w1))
                (Toy.start project)).
  { apply (@C4_one_task_per_directory Toy.toy (verdict_in project) 0
             "/tmp/a" [Toy.dir "node_modules"] (Toy.file "package.json")
             [Toy.dir "src"] [] (runner_Task runner_npm) []
             (Toy.start project)).
    - exact stable_npm.
    - reflexivity.
    - intros x [<-|[]] Hd. discriminate Hd.
    - reflexivity.
    - intros t' [].
    - reflexivity. }
  unfold fires_only in H. cbn [app] in H. rewrite H. split; reflexivity.
Defined.

(** The cargo task alone. *)
Lemma stable_cargo :
  stable (verdict_in crate) ([] ++ runner_Task runner_cargo :: []).
Proof. intros t [<-|[]] name w. reflexivity. Defined.

(** C10 on [crate], where [cargo clean] fails: [Walk] returns the error of
    the task, and the line for [Cargo.toml] is in the trace before the call
    of the child process. *)
Lemma C10_witness :
  let r := Walk 1 "/c" [runner_Task runner_cargo] (Toy.start crate) in
  fst r = Returned (Some (Errorf "failed to run command %q: %w" "cargo clean"
                            (ExitError 1))) /\
  exists d, trace (snd r) = [EvReadDir "/c"] ++ EvStdout "/c/Cargo.toml" :: d.
Proof.
  destruct (@C10_line_precedes_run Toy.toy (verdict_in crate) 0
              "/c" [] (Toy.file "Cargo.toml") [Toy.dir "src"]
              [] (runner_Task runner_cargo) [] (Toy.start crate))
    as [_ [Hr [d [_ Ht]]]].
  - exact stable_cargo.
  - reflexivity.
  - intros x [].
  - reflexivity.
  - intros t' [].
  - reflexivity.
  - intros p w0.
    destruct (@entry_Run_trace Toy.toy false Cargo p w0) as [d [Hd _]].
    exists d. exact Hd.
  - split; [exact Hr|]. exists d. exact Ht.
Defined.

(** C5 on [two_manifests]: [README.md] sorts before [composer.json] and is
    no manifest, [site.csproj] sorts after it; the composer task fires. *)
Lemma C5_witness :
  composer_fires false 0 "/r" (tasks_for false two_manifests)
    (Toy.start two_manifests)
  /\ trace (snd (Walk 1 "/r" (tasks_for false two_manifests)
                  (Toy.start two_manifests)))
     = [EvReadDir "/r"; EvStdout "/r/composer.json"; EvRemoveAll "/r/vendor"].
Proof.
  split; [|reflexivity].
  apply (@C5_composer_before_npm Toy.toy false two_manifests 0 "/r"
           (Toy.start two_manifests)
           [Toy.file "site.csproj"; Toy.file "package.json";
            Toy.file "composer.json"; Toy.dir "vendor"; Toy.file "README.md"]
           (Toy.file "composer.json") (Toy.file "package.json")).
  - reflexivity.
  - reflexivity.
  - reflexivity.
  - cbn. auto.
  - reflexivity.
  - reflexivity.
  - cbn. auto.
  - reflexivity.
  - reflexivity.
  - intros x k [<-|[<-|[<-|[<-|[<-|[]]]]]] Hd Hlt Hav;
      try discriminate Hd; try discriminate Hlt.
    destruct k; reflexivity.
Defined.

(** C6 on [workspace]: [dotnet clean] fails in [/w/api]; the task reports it
    and returns nil, the traversal goes on to [/w/web] and the run ends with
    exit code 0. *)
Lemma C6_witness :
  run runner_dotnet "/w/api/Api.csproj" (Toy.start workspace) =
    (None,
     mkWorld workspace
       [EvExec (mkCmd "dotnet" ["clean"; "--nologo"] "/w/api");
        EvStderr "failed to run command %q: %v\n%s\n"
          [AStr "dotnet clean --nologo"; AErr (ExitError 1);
           AStr "build failed"]])
  /\ fst (main 3 false ["/w"] (Toy.start workspace)) = Returned 0
  /\ In (EvReadDir "/w/web") (trace (snd (main 3 false ["/w"] (Toy.start workspace)))).
Proof.
  split.
  - apply (proj1 (@C6_dotnet_failure_is_tolerated Toy.toy "/w/api/Api.csproj"
                    (Toy.start workspace) (ExitError 1) "build failed" workspace
                    eq_refl)).
  - split; [reflexivity|]. vm_compute. do 9 right. left. reflexivity.
Defined.

(** C8 on [npm_only]: the go tool is not installed; after the traversal the
    first cache-clearing command is run all the same, fails, is reported,
    and the run ends with exit code 1 without running the other four. *)
Lemma C8_witness :
  let r := main 3 false ["/tmp/a"] (Toy.start npm_only) in
  fst r = Returned 1 /\
  trace (snd r) =
    lookups ++
    [EvReadDir "/tmp/a"; EvStdout "/tmp/a/package.json";
     EvRemoveAll "/tmp/a/node_modules";
     EvExec (mkCmd "go" ["clean"; "-cache"] "");
     EvStderr "purging go cache failed with an error: %v\n"
       [AErr (Errorf "failed to run command %q: %w" "go clean -cache"
                (ExecError "go"))]].
Proof.
  destruct (@C8_cache_clearing_fail_fast Toy.toy 3 ["/tmp/a"]
              (Toy.start npm_only) "/tmp/a"
              (snd (@Walk Toy.toy 3 "/tmp/a" (@tasks_for Toy.toy false npm_only)
                      (@mkWorld Toy.toy npm_only lookups))))
    as [Hm _].
  - reflexivity.
  - discriminate.
  - reflexivity.
  - cbv zeta. rewrite Hm. split; reflexivity.
Defined.

(** C9 on [bare]: no tool is installed; the run ends with exit code 2 after
    the four lookups and the diagnostic, without any fuel. *)
Lemma C9_witness :
  main 0 false ["/tmp/a"] (Toy.start bare) =
    (Returned 2,
     mkWorld bare
       (lookups ++
        [EvStderr "no valid package managers found (tried cargo, composer, npm)\n"
           []])).
Proof.
  apply (proj2 (@C9_no_tool_no_traversal Toy.toy 0 false ["/tmp/a"]
                  (Toy.start bare) "/tmp/a" eq_refl
                  (fun k => match k with
                            | Composer | Npm | Cargo | Dotnet => eq_refl
                            end))).
Defined.

(** ** The further properties on explicit inputs *)

(** X1 on [cargo.toml]. *)
Lemma X1_witness : Cargo = Cargo.
Proof.
  apply (@X1_manifests_disjoint Cargo Cargo "cargo.toml");
    reflexivity.
Defined.

(** X5 on [crate]: the error of the traversal names the failed command,
    which is the last call of the trace. *)
Lemma X5_witness :
  exists tr ev,
    trace (snd (Walk 2 "/c" (tasks_for false crate) (Toy.start crate)))
      = tr ++ [ev] /\
    failing_call
      (Errorf "failed to run command %q: %w" "cargo clean" (ExitError 1)) ev.
Proof.
  apply (@X5_walk_stops_at_the_failing_call Toy.toy false 2 "/c"
           (@tasks_for Toy.toy false crate) (Toy.start crate)).
  - apply tasks_for_catalogue.
  - reflexivity.
Defined.

(** X6 on [guarded]: the dry run stops at [/g/secret] with exit code 1. *)
Lemma X6_witness :
  exists p e tr,
    os_Readdir guarded p = inl e /\
    fs (snd (main 3 true ["/g"] (Toy.start guarded))) = guarded /\
    trace (snd (main 3 true ["/g"] (Toy.start guarded))) =
      tr ++ [EvReadDir p;
             EvStderr "purging failed with an error: %v\n"
               [AErr (Errorf "failed to read file entries of directory %q: %w"
                        p e)]].
Proof.
  apply (@X6_dry_run_fails_on_listings_only Toy.toy 3 ["/g"] (Toy.start guarded)).
  reflexivity.
Defined.

(** X9 on [project], whose tree is three levels deep. *)
Lemma X9_witness :
  exists r, fst (Walk 3 "/tmp/a" (tasks_for true project) (Toy.start project))
            = Returned r.
Proof.
  apply (@X9_dry_walk_terminates Toy.toy 3 "/tmp/a"
           (@tasks_for Toy.toy true project) (Toy.start project)).
  - apply tasks_for_catalogue.
  - eapply bounded_dir; [reflexivity|].
    intros x [<-|[<-|[<-|[]]]] Hd; try discriminate Hd.
    + eapply bounded_dir; [reflexivity|]. intros y [<-|[]] Hy.
      eapply bounded_dir; [reflexivity|]. intros z [<-|[]] Hz.
      discriminate Hz.
    + eapply bounded_dir; [reflexivity|]. intros y [<-|[]] Hy.
      discriminate Hy.
Defined.

(** X10 on a root that does not exist. *)
Lemma X10_witness :
  main 1 false ["/nowhere"] (Toy.start project) =
    (Returned 1,
     mkWorld project
       (lookups ++
        [EvReadDir "/nowhere";
         EvStderr "purging failed with an error: %v\n"
           [AErr (Errorf "failed to read file entries of directory %q: %w"
                    "/nowhere" (PathError "open" "/nowhere" ENOENT))]])).
Proof.
  apply (@X10_unlistable_root Toy.toy 0 false ["/nowhere"] (Toy.start project)
           "/nowhere" Npm (PathError "open" "/nowhere" ENOENT));
    reflexivity.
Defined.

(** X11 on [three_manifests]: [Cargo.toml] is the first manifest by name,
    the cargo task fires on it, although composer and npm come first in the
    catalogue. *)
Lemma X11_witness :
  fires_only 0 "/r" (tasks_for false three_manifests)
    (runner_Task (entry false Cargo)) "/r/Cargo.toml" (fun w1 => w1)
    (Toy.start three_manifests).
Proof.
  apply (@X11_first_manifest_by_name_fires Toy.toy false three_manifests 0 "/r"
           (Toy.start three_manifests)
           [Toy.file "package.json"; Toy.file "composer.json";
            Toy.file "Cargo.toml"; Toy.dir "vendor"]
           (Toy.file "Cargo.toml") Cargo).
  - reflexivity.
  - cbn. auto.
  - reflexivity.
  - reflexivity.
  - reflexivity.
  - intros x k' [<-|[<-|[<-|[<-|[]]]]] Hd Hlt Hav;
      try discriminate Hd; discriminate Hlt.
Defined.

(** X12 on two entries the system returns in either order. *)
Lemma X12_witness :
  sort_by_name [Toy.file "b.txt"; Toy.dir "a"] =
    sort_by_name [Toy.dir "a"; Toy.file "b.txt"].
Proof.
  apply (@X12_listing_order_is_canonical
           [Toy.file "b.txt"; Toy.dir "a"] [Toy.dir "a"; Toy.file "b.txt"]).
  - repeat constructor; cbn; intuition discriminate.
  - apply perm_swap.
Defined.


(** [rooted] constrains the listings: on [project], a traversal of
    [/tmp/a] is not entitled to a listing of [/tmp/a/..], since the listing
    of [/tmp/a] returned no entry of that name. *)
Example rooted_rejects_a_stray_listing :
  ~ rooted project [] "/tmp/a" [EvReadDir "/tmp/a"; EvReadDir "/tmp/a/.."].
Proof.
  intros [H|[d' [Hd Hj]]]; [discriminate H|].
  injection Hd as <-.
  destruct Hj as [[dir [e [[pre [post [l [Hb [Hl He]]]]] [Hdir Hp]]]] _].
  cbn [app] in Hb. destruct pre as [|ev pre]; cbn [app] in Hb.
  - injection Hb as <- _. vm_compute in Hl. injection Hl as <-.
    destruct He as [<-|[<-|[<-|[]]]]; vm_compute in Hp; discriminate Hp.
  - injection Hb as _ Hb. destruct pre; discriminate Hb.
Qed.
